(** * Variable resolver of vscode-openscad (src/variableResolver.ts)

    A shallow embedding of the class [VariableResolver]: the placeholder
    evaluator [evaluateSingleVariable], the pattern resolver [resolveString]
    and the version scanner [getVersionNumber], together with models of the
    platform primitives they call (ECMAScript strings and regular
    expressions, the npm package escape-string-regexp, Node's [path] and
    [fs] modules and the parts of the vscode API the class touches).

    Conventions of the embedding:
    - a JavaScript string is a [string]; its code units are 8-bit
      characters, so the line terminators a regular expression's [.]
      refuses are LF and CR;
    - a JavaScript number is a [number]: a double whose value is an
      integer, [Infinity] or [NaN].  Conversions and additions round to
      the nearest double, ties to the even significand, as IEEE 754
      binary64 does; fractions, negative zero and the negative infinity
      do not arise in this program;
    - synchronous and awaited effects are sequenced in a state-and-exception
      monad [M] over a [World] holding the file system and the log of
      observable events. *)

From Stdlib Require Import ZArith String Ascii List Bool Lia.
From stdpp Require Import base tactics option list gmap strings pretty.

Local Open Scope string_scope.
Local Open Scope Z_scope.
Local Open Scope list_scope.

(** ** ECMAScript strings *)

Module JsString.

(** [s.startsWith(p)], also the test "the literal p matches at the
    beginning of s" of a regular expression made of literals. *)
Fixpoint startsWith (p s : string) : bool :=
  match p, s with
  | EmptyString, _ => true
  | String a p', String b s' => bool_decide (a = b) && startsWith p' s'
  | String _ _, EmptyString => false
  end.

(** [s.slice(n)] *)
Fixpoint slice_from (n : nat) (s : string) : string :=
  match n, s with
  | O, _ => s
  | S n', String _ s' => slice_from n' s'
  | S _, EmptyString => EmptyString
  end.

(** [s.includes(needle)] *)
Fixpoint includes (needle s : string) : bool :=
  startsWith needle s ||
  match s with
  | EmptyString => false
  | String _ s' => includes needle s'
  end.

(** [s.replace(needle, repl)] with a string [needle]: only the first
    occurrence is replaced.  [repl] is inserted as it is, which is what
    ECMAScript does for a replacement text without [$]. *)
Fixpoint replace_first (needle repl s : string) : string :=
  if startsWith needle s then repl +:+ slice_from (String.length needle) s
  else match s with
       | EmptyString => EmptyString
       | String c s' => String c (replace_first needle repl s')
       end.

(** [s.replace(/needle/g, repl)] for a regular expression that matches
    exactly the non-empty literal [needle]: every match, found from left
    to right without overlap, is replaced.  [skip] counts the characters
    of the current match that are still to be dropped. *)
Fixpoint replace_all_from (needle repl : string) (skip : nat) (s : string)
  : string :=
  match s with
  | EmptyString => EmptyString
  | String c s' =>
      match skip with
      | S k => replace_all_from needle repl k s'
      | O =>
          if startsWith needle s
          then repl +:+ replace_all_from needle repl
                          (Nat.pred (String.length needle)) s'
          else String c (replace_all_from needle repl O s')
      end
  end.

Definition replace_all (needle repl s : string) : string :=
  replace_all_from needle repl O s.

(** Line terminators, which [.] does not match. *)
Definition is_line_terminator (c : ascii) : bool :=
  bool_decide (c = "010"%char) || bool_decide (c = "013"%char).

Definition is_digit (c : ascii) : bool :=
  (48 <=? Z.of_nat (nat_of_ascii c)) && (Z.of_nat (nat_of_ascii c) <=? 57).

Definition is_nonzero_digit (c : ascii) : bool :=
  (49 <=? Z.of_nat (nat_of_ascii c)) && (Z.of_nat (nat_of_ascii c) <=? 57).

Definition digit_value (c : ascii) : Z := Z.of_nat (nat_of_ascii c) - 48.

Fixpoint all_digits (s : string) : bool :=
  match s with
  | EmptyString => true
  | String c s' => is_digit c && all_digits s'
  end.

(** Value of a string of decimal digits, most significant digit first. *)
Fixpoint decimal_value (acc : Z) (s : string) : Z :=
  match s with
  | EmptyString => acc
  | String c s' => decimal_value (10 * acc + digit_value c) s'
  end.

End JsString.

(** ** ECMAScript numbers *)

Module JsNumber.

(** The doubles of this program: [Num z] is the finite double whose value
    is the integer [z], which is below 2^53 in absolute value or a
    multiple of a power of two with a significand of 53 bits. *)
Inductive number : Type :=
| Num (z : Z)
| Infinity
| NaN.

Global Instance number_eq_dec : EqDecision number.
Proof. solve_decision. Defined.

(** The integer nearest to [z], for [z] not negative, among those a
    double can hold: the unit in the last place of a number of more than
    53 bits is 2^(bits - 53), and a tie goes to the even significand. *)
Definition nearest_nat (z : Z) : Z :=
  let u := 2 ^ Z.max 0 (Z.log2 z - 52) in
  let q := z / u in
  let r := z mod u in
  if (2 * r <? u) || ((2 * r =? u) && Z.even q) then q * u
  else (q + 1) * u.

Definition nearest (z : Z) : Z := Z.sgn z * nearest_nat (Z.abs z).

(** The double an integer rounds to: [Infinity] when the rounding reaches
    2^1024.  (No operation of this program rounds below -2^1024.) *)
Definition double (z : Z) : number :=
  if 2 ^ 1024 <=? nearest z then Infinity else Num (nearest z).

(** [Math.max(a, b)]: [NaN] as soon as one argument is [NaN]. *)
Definition Math_max (a b : number) : number :=
  match a, b with
  | NaN, _ | _, NaN => NaN
  | Infinity, _ | _, Infinity => Infinity
  | Num x, Num y => Num (Z.max x y)
  end.

(** [a < 0]: false for [NaN]. *)
Definition lt_zero (a : number) : bool :=
  match a with
  | Num x => x <? 0
  | Infinity | NaN => false
  end.

(** [a + 1]: the exact sum, rounded. *)
Definition succ (a : number) : number :=
  match a with
  | Num x => double (x + 1)
  | Infinity => Infinity
  | NaN => NaN
  end.

(** [Number(v)] for [v] a capture of a match: [undefined] converts to
    [NaN], the empty string to 0 and a string of decimal digits to the
    double nearest to its value (V8 rounds the exact value, however many
    digits there are).  Other numeric literals (signs, fractions,
    exponents, hex, surrounding blanks) are outside the embedding and
    stand as [NaN]; the captures of this program are strings of digits. *)
Definition Number (v : option string) : number :=
  match v with
  | None => NaN
  | Some s =>
      if JsString.all_digits s then double (JsString.decimal_value 0 s)
      else NaN
  end.

(** The digits [String] writes for the double [x], [x] positive, as an
    integer: the multiple of a power of ten with the fewest significant
    digits that rounds to [x]; of two such multiples the one nearer to
    [x], and at equal distance the even one.  [m] is the number of
    zeros tried at the end, counted down. *)
Fixpoint shortest (x : Z) (m : nat) : Z :=
  match m with
  | O => x
  | S m' =>
      let p := 10 ^ Z.of_nat m in
      let lo := x / p * p in
      let hi := lo + p in
      let ok_lo := bool_decide (double lo = Num x) in
      let ok_hi := bool_decide (double hi = Num x) in
      if ok_lo && ok_hi then
        (if x - lo <? hi - x then lo
         else if hi - x <? x - lo then hi
         else if Z.even (x / p) then lo else hi)
      else if ok_lo then lo
      else if ok_hi then hi
      else shortest x m'
  end.

Definition shortest_decimal (x : Z) : Z :=
  shortest x (Nat.pred (String.length (pretty x))).

(** A string of digits without the zeros at its end. *)
Fixpoint strip_zeros (s : string) : string :=
  match s with
  | EmptyString => EmptyString
  | String c s' =>
      match strip_zeros s' with
      | EmptyString =>
          if bool_decide (c = "0"%char) then EmptyString
          else String c EmptyString
      | rest => String c rest
      end
  end.

(** The exponent notation of the integer [r]: its first significant
    digit, the other significant digits after a point when there are
    any, and the exponent. *)
Definition exponential (r : Z) : string :=
  let digits := pretty r in
  let e := pretty (Z.of_nat (Nat.pred (String.length digits))) in
  match strip_zeros digits with
  | EmptyString => EmptyString
  | String d EmptyString => String d ("e+" +:+ e)
  | String d rest => String d ("." +:+ rest +:+ "e+" +:+ e)
  end.

(** [String(a)], also what a template literal puts for [a]: the digits
    of [shortest_decimal], in exponent notation from 10^21. *)
Definition to_String (a : number) : string :=
  match a with
  | Num x =>
      let r := shortest_decimal (Z.abs x) in
      (if x <? 0 then "-" else EmptyString)
      +:+ (if r <? 10 ^ 21 then pretty r else exponential r)
  | Infinity => "Infinity"
  | NaN => "NaN"
  end.

End JsNumber.

(** ** The npm package escape-string-regexp

    [string.replace(/[|\\{}()[\]^$+*?.]/g, '\\$&').replace(/-/g, '\\x2d')]:
    every operator character gets a backslash and every hyphen becomes
    [\x2d].  The two passes act on single characters and the first one
    neither makes nor removes a hyphen, so they are one pass here.
    (Releases before 2.0 leave the hyphen alone; [RegExp] below reads a
    plain hyphen and [\x2d] as the same atom.) *)

Module EscapeStringRegexp.

Definition is_operator (c : ascii) : bool :=
  JsString.includes (String c EmptyString) "|\{}()[]^$+*?.".

Definition escape_char (c : ascii) : string :=
  if is_operator c then String "\" (String c EmptyString)
  else if bool_decide (c = "-"%char) then "\x2d"
  else String c EmptyString.

Fixpoint escapeStringRegexp (s : string) : string :=
  match s with
  | EmptyString => EmptyString
  | String c s' => escape_char c +:+ escapeStringRegexp s'
  end.

End EscapeStringRegexp.

(** ** Regular expressions

    The fragment of ECMAScript regular expressions this program builds:
    a sequence of literal characters and of copies of the capture group
    [version_group] (a digit from 1 to 9 followed by any number of digits
    from 0 to 9).  [RegExp] reads a source text of that fragment and
    [exec] runs the backtracking matcher of a non-global expression. *)

Module JsRegExp.

Inductive atom : Type :=
| RChar (c : ascii)      (* a character that matches itself *)
| RVersion.              (* the capture group [version_group] *)

Definition regexp : Type := list atom.

Definition version_group : string := "([1-9][0-9]*)".

(** [new RegExp(source)].  [None] stands for a source text outside the
    fragment (for which ECMAScript would build another expression or
    raise a SyntaxError).  [skip] counts the characters of the current
    atom still to be passed over. *)
Fixpoint RegExp_from (skip : nat) (source : string) : option regexp :=
  match source with
  | EmptyString => Some []
  | String c rest =>
      match skip with
      | S k => RegExp_from k rest
      | O =>
          if JsString.startsWith "\x2d" source
          then cons (RChar "-"%char) <$> RegExp_from 3 rest
          else if bool_decide (c = "\"%char)
          then match rest with
               | String d _ =>
                   if EscapeStringRegexp.is_operator d
                   then cons (RChar d) <$> RegExp_from 1 rest
                   else None
               | EmptyString => None
               end
          else if JsString.startsWith version_group source
          then cons RVersion <$> RegExp_from 12 rest
          else if EscapeStringRegexp.is_operator c then None
          else cons (RChar c) <$> RegExp_from 0 rest
      end
  end.

Definition RegExp (source : string) : option regexp := RegExp_from 0 source.

(** The greedy run of digits of the group followed by the rest of the
    expression [k]: the longest run of digits is tried first and given
    back digit by digit while [k] fails.  [cap] is the text captured so
    far. *)
Fixpoint digits_then (k : string → string → option (list string))
    (cap s : string) : option (list string) :=
  match s with
  | String d s' =>
      if JsString.is_digit d then
        match digits_then k (cap +:+ String d EmptyString) s' with
        | Some r => Some r
        | None => k cap s
        end
      else k cap s
  | EmptyString => k cap s
  end.

(** A match of [re] that starts at the beginning of [s]; the result lists
    the captures of the groups in order. *)
Fixpoint match_here (re : regexp) (s : string) : option (list string) :=
  match re with
  | [] => Some []
  | RChar c :: re' =>
      match s with
      | String d s' => if bool_decide (c = d) then match_here re' s' else None
      | EmptyString => None
      end
  | RVersion :: re' =>
      match s with
      | String d s' =>
          if JsString.is_nonzero_digit d
          then digits_then (λ cap rest, cons cap <$> match_here re' rest)
                 (String d EmptyString) s'
          else None
      | EmptyString => None
      end
  end.

(** [re.exec(s)] for an expression without flags: the leftmost match, or
    [None] for [null]. *)
Fixpoint exec (re : regexp) (s : string) : option (list string) :=
  match match_here re s with
  | Some caps => Some caps
  | None =>
      match s with
      | EmptyString => None
      | String _ s' => exec re s'
      end
  end.

(** [matched[1]]: the first capture, [None] for [undefined]. *)
Definition capture1 (matched : list string) : option string := matched !! 0%nat.

End JsRegExp.

(** ** Node's [path] module

    The resolver is written against the interface; [Posix] implements it
    the way Node does on POSIX systems. *)

Class PathApi : Type := {
  basename : string → string;                (* path.basename(p) *)
  basename_ext : string → string → string;   (* path.basename(p, ext) *)
  extname : string → string;
  dirname : string → string;
  isAbsolute : string → bool;
  join : string → string → string;           (* path.join(a, b) *)
  relative : string → string → string;       (* path.relative(from, to) *)
}.

Module Posix.

Definition is_slash (c : ascii) : bool := bool_decide (c = "/"%char).

Fixpoint drop_while (f : ascii → bool) (l : list ascii) : list ascii :=
  match l with
  | [] => []
  | c :: l' => if f c then drop_while f l' else l
  end.

Fixpoint take_while (f : ascii → bool) (l : list ascii) : list ascii :=
  match l with
  | [] => []
  | c :: l' => if f c then c :: take_while f l' else []
  end.

Definition chars (s : string) : list ascii := list_ascii_of_string s.
Definition text (l : list ascii) : string := string_of_list_ascii l.

(** The characters of the last segment of [p] in reverse order, the
    slashes that end [p] left out. *)
Definition last_segment_rev (p : string) : list ascii :=
  take_while (λ c, negb (is_slash c)) (drop_while is_slash (rev (chars p))).

Definition posix_basename (p : string) : string :=
  text (rev (last_segment_rev p)).

(** Is [l1] the beginning of [l2], and what follows it. *)
Fixpoint strip (l1 l2 : list ascii) : option (list ascii) :=
  match l1, l2 with
  | [], _ => Some l2
  | a :: l1', b :: l2' => if bool_decide (a = b) then strip l1' l2' else None
  | _ :: _, [] => None
  end.

(** Node's loop compares [ext] with the last segment from the right.  When
    the segment ends with [ext] the rest of the segment is the result,
    unless nothing is left; when a character differs the segment is the
    result; when the segment runs out first, the result runs to the end
    of [p]. *)
Definition posix_basename_ext (p ext : string) : string :=
  if bool_decide (ext = EmptyString)
     || (String.length p <? String.length ext)%nat
  then posix_basename p
  else if bool_decide (ext = p) then EmptyString
  else
    let seg := last_segment_rev p in
    match strip (rev (chars ext)) seg with
    | Some [] => text (rev seg)
    | Some stem => text (rev stem)
    | None =>
        match strip seg (rev (chars ext)) with
        | Some _ => text (rev seg ++ take_while is_slash (rev (chars p)))
        | None => text (rev seg)
        end
    end.

Definition is_dot (c : ascii) : bool := bool_decide (c = "."%char).

(** From the last dot of the last segment to its end; empty when the
    segment has no dot, starts with its only dot, or is [..]. *)
Definition posix_extname (p : string) : string :=
  let seg := last_segment_rev p in
  let ext := take_while (λ c, negb (is_dot c)) seg in
  match drop_while (λ c, negb (is_dot c)) seg with
  | [] => EmptyString
  | _ :: [] => EmptyString
  | _ :: _ =>
      if bool_decide (text (rev seg) = "..") then EmptyString
      else text ("."%char :: rev ext)
  end.

(** The loop of [dirname] runs from the last character down to the
    second one: it passes the slashes that end [p], then the last
    segment, and cuts at the slash in front of it. *)
Definition posix_dirname (p : string) : string :=
  match p with
  | EmptyString => "."
  | String c0 t =>
      let hasRoot := is_slash c0 in
      match drop_while (λ c, negb (is_slash c))
              (drop_while is_slash (rev (chars t))) with
      | [] => if hasRoot then "/" else "."
      | _ :: [] => if hasRoot then "//" else String c0 EmptyString
      | _ :: front => String c0 (text (rev front))
      end
  end.

Definition posix_isAbsolute (p : string) : bool :=
  match p with
  | String c _ => is_slash c
  | EmptyString => false
  end.

(** [p.split('/')]: [cur] holds the current segment in reverse. *)
Fixpoint split_slash (cur : list ascii) (l : list ascii) : list string :=
  match l with
  | [] => [text (rev cur)]
  | c :: l' =>
      if is_slash c then text (rev cur) :: split_slash [] l'
      else split_slash (c :: cur) l'
  end.

(** [normalizeString]: [res] is the list of the segments kept so far, the
    last one first. *)
Fixpoint normalize_segments (allowAboveRoot : bool) (res : list string)
    (segs : list string) : list string :=
  match segs with
  | [] => rev res
  | seg :: segs' =>
      if bool_decide (seg = EmptyString) || bool_decide (seg = ".")
      then normalize_segments allowAboveRoot res segs'
      else if bool_decide (seg = "..") then
        match res with
        | last :: res' =>
            if bool_decide (last = "..")
            then normalize_segments allowAboveRoot
                   (if allowAboveRoot then seg :: res else res) segs'
            else normalize_segments allowAboveRoot res' segs'
        | [] =>
            normalize_segments allowAboveRoot
              (if allowAboveRoot then [seg] else []) segs'
        end
      else normalize_segments allowAboveRoot (seg :: res) segs'
  end.

Fixpoint join_slash (segs : list string) : string :=
  match segs with
  | [] => EmptyString
  | [seg] => seg
  | seg :: segs' => seg +:+ "/" +:+ join_slash segs'
  end.

Definition normalizeString (p : string) (allowAboveRoot : bool) : string :=
  join_slash (normalize_segments allowAboveRoot [] (split_slash [] (chars p))).

Definition ends_with_slash (p : string) : bool :=
  match rev (chars p) with
  | c :: _ => is_slash c
  | [] => false
  end.

Definition posix_normalize (p : string) : string :=
  if bool_decide (p = EmptyString) then "."
  else
    let isAbs := posix_isAbsolute p in
    let trailing := ends_with_slash p in
    let q := normalizeString p (negb isAbs) in
    if bool_decide (q = EmptyString)
    then (if isAbs then "/" else if trailing then "./" else ".")
    else
      let q' := if trailing then q +:+ "/" else q in
      if isAbs then "/" +:+ q' else q'.

Definition posix_join (a b : string) : string :=
  let joined :=
    if bool_decide (a = EmptyString) then b
    else if bool_decide (b = EmptyString) then a
    else a +:+ "/" +:+ b in
  if bool_decide (joined = EmptyString) then "." else posix_normalize joined.

(** [path.resolve(p)] as a list of segments, for the working directory
    [cwd], an absolute path. *)
Definition resolve_segments (cwd p : string) : list string :=
  let full := if posix_isAbsolute p then p else cwd +:+ "/" +:+ p in
  normalize_segments false [] (split_slash [] (chars full)).

Fixpoint drop_common (l1 l2 : list string) : list string * list string :=
  match l1, l2 with
  | a :: l1', b :: l2' =>
      if bool_decide (a = b) then drop_common l1' l2' else (l1, l2)
  | _, _ => (l1, l2)
  end.

Definition posix_relative (cwd from to : string) : string :=
  if bool_decide (from = to) then EmptyString
  else
    let '(up, down) :=
      drop_common (resolve_segments cwd from) (resolve_segments cwd to) in
    join_slash (((λ _, "..") <$> up) ++ down).

(** The interface on a POSIX system whose working directory is [cwd]. *)
Definition api (cwd : string) : PathApi := {|
  basename := posix_basename;
  basename_ext := posix_basename_ext;
  extname := posix_extname;
  dirname := posix_dirname;
  isAbsolute := posix_isAbsolute;
  join := posix_join;
  relative := posix_relative cwd;
|}.

End Posix.

(** ** Effects: exceptions, the file system, the console and the notifier *)

Module Effects.
Import JsNumber.

(** Values the program throws or rejects a promise with. *)
Inductive exn : Type :=
| TypeError (msg : string)
| SyntaxError (msg : string)
| SystemError (code syscall path : string)   (* an error of Node's fs *)
| Thrown (n : number).                       (* a number used as reason *)

Inductive outcome (A : Type) : Type :=
| Return (a : A)
| Throw (e : exn).
Global Arguments Return {A} a.
Global Arguments Throw {A} e.

Definition outcome_bind {A B} (f : A → outcome B) (o : outcome A)
  : outcome B :=
  match o with
  | Return a => f a
  | Throw e => Throw e
  end.

Definition outcome_map {A B} (f : A → B) (o : outcome A) : outcome B :=
  outcome_bind (λ a, Return (f a)) o.

(** What a path names.  A directory lists the names of its entries, in
    the order [readdir] reports them. *)
Inductive node : Type :=
| File
| Dir (entries : list string) (readable writable : bool).

(** What the outside can observe of a run, in order. *)
Inductive event : Type :=
| ExistsSync (p : string)
| MkdirSync (p : string)
| Readdir (p : string)
| ConsoleLog (msg : string)
| ConsoleError (e : exn)
| ShowErrorMessage (msg : string)   (* vscode.window.showErrorMessage *)
| Uncaught (e : exn).               (* an exception lost in a callback *)

Definition is_fs_event (e : event) : bool :=
  match e with
  | ExistsSync _ | MkdirSync _ | Readdir _ => true
  | _ => false
  end.

Definition is_notification (e : event) : bool :=
  match e with
  | ShowErrorMessage _ => true
  | _ => false
  end.

Record World : Type := mkWorld {
  files : gmap string node;
  log : list event;
}.

Definition M (A : Type) : Type := World → outcome A * World.

Global Instance M_ret : MRet M := λ A a w, (Return a, w).
Global Instance M_bind : MBind M := λ A B f m w,
  match m w with
  | (Return a, w') => f a w'
  | (Throw e, w') => (Throw e, w')
  end.

Definition throw {A} (e : exn) : M A := λ w, (Throw e, w).

Definition lift {A} (o : outcome A) : M A := λ w, (o, w).

Definition emit (e : event) : M unit :=
  λ w, (Return tt, mkWorld (files w) (log w ++ [e])).

Definition console_log (msg : string) : M unit := emit (ConsoleLog msg).
Definition console_error (e : exn) : M unit := emit (ConsoleError e).
Definition showErrorMessage (msg : string) : M unit :=
  emit (ShowErrorMessage msg).

Definition get_files : M (gmap string node) :=
  λ w, (Return (files w), w).

Definition put_files (fs : gmap string node) : M unit :=
  λ w, (Return tt, mkWorld fs (log w)).

Section fs.
Context `{PathApi}.

(** [fs.existsSync(p)] never throws. *)
Definition existsSync (p : string) : M bool :=
  emit (ExistsSync p);;
  fs ← get_files;
  mret (bool_decide (is_Some (fs !! p))).

(** [fs.mkdirSync(p)], without the [recursive] option: the parent has
    to be a directory one may write to, and [p] must not exist. *)
Definition mkdirSync (p : string) : M unit :=
  emit (MkdirSync p);;
  fs ← get_files;
  match fs !! p with
  | Some _ => throw (SystemError "EEXIST" "mkdir" p)
  | None =>
      match fs !! dirname p with
      | Some (Dir entries readable true) =>
          put_files
            (<[p := Dir [] true true]>
               (<[dirname p := Dir (entries ++ [basename p]) readable true]>
                  fs))
      | Some (Dir _ _ false) => throw (SystemError "EACCES" "mkdir" p)
      | Some File => throw (SystemError "ENOTDIR" "mkdir" p)
      | None => throw (SystemError "ENOENT" "mkdir" p)
      end
  end.

(** The error [readdir] reports for what is not a readable directory. *)
Definition scandir_error (p : string) (n : option node) : exn :=
  match n with
  | Some (Dir _ _ _) => SystemError "EACCES" "scandir" p
  | Some File => SystemError "ENOTDIR" "scandir" p
  | None => SystemError "ENOENT" "scandir" p
  end.

(** [fs.readdir(p, callback)]: the arguments [(err, files)] the callback
    is called with.  Nothing else touches the world between the call and
    its callback. *)
Definition readdir (p : string) : M (exn + list string) :=
  emit (Readdir p);;
  fs ← get_files;
  mret match fs !! p with
       | Some (Dir entries true _) => inr entries
       | n => inl (scandir_error p n)
       end.
End fs.

End Effects.

(** Running a computation of [M]: the primitives are unfolded and the
    steps they allow are taken. *)
Ltac run :=
  cbv beta iota zeta delta
    [mbind mret Effects.M_bind Effects.M_ret Effects.throw Effects.lift
     Effects.emit Effects.existsSync Effects.readdir Effects.get_files
     Effects.put_files Effects.console_log Effects.console_error
     Effects.showErrorMessage];
  cbn [Effects.files Effects.log].

(** ** The vscode API *)

Record Uri : Type := { fsPath : string }.

Record WorkspaceFolder : Type := { uri : Uri }.

(** ** src/variableResolver.ts *)

Module VariableResolver.
Import JsString JsNumber JsRegExp EscapeStringRegexp Effects.

(** [a || b] on strings: the empty string is the only falsy one. *)
Definition or_else (a b : string) : string :=
  if bool_decide (a = EmptyString) then b else a.

(** The text [VERSION_FORMAT] matches. *)
Definition VERSION_MARKER : string := "${#}".

Definition defaultPattern : string :=
  "${fileBasenameNoExtension}.${exportExtension}".

(** The body [(.*?)\}] of [VARIABLE_REGEXP] after its [\$\{]: the
    shortest run of characters other than line terminators that a [}]
    follows.  The result is the capture. *)
Fixpoint lazy_until_brace (s : string) : option string :=
  match s with
  | EmptyString => None
  | String c s' =>
      if bool_decide (c = "}"%char) then Some EmptyString
      else if is_line_terminator c then None
      else String c <$> lazy_until_brace s'
  end.

(** A match of [VARIABLE_REGEXP] at the beginning of [s]: its capture. *)
Definition VARIABLE_REGEXP_match (s : string) : option string :=
  if startsWith "${" s then lazy_until_brace (slice_from 2 s) else None.

(** [s.replace(VARIABLE_REGEXP, callback)]: the matches are found from
    left to right, the callback gets the matched text and the capture, and
    an exception of the callback ends the replacement. *)
Fixpoint replace_variables_from (callback : string → string → outcome string)
    (skip : nat) (s : string) : outcome string :=
  match s with
  | EmptyString => Return EmptyString
  | String c s' =>
      match skip with
      | S k => replace_variables_from callback k s'
      | O =>
          match VARIABLE_REGEXP_match s with
          | Some variable =>
              outcome_bind
                (λ value,
                   outcome_map (String.append value)
                     (replace_variables_from callback
                        (2 + String.length variable) s'))
                (callback ("${" +:+ variable +:+ "}") variable)
          | None =>
              outcome_map (String c) (replace_variables_from callback O s')
          end
      end
  end.

Definition replace_variables callback (s : string) : outcome string :=
  replace_variables_from callback O s.

(** The field [variables]: the names [testVars] tries. *)
Definition variables : list string :=
  ["workspaceFolder"; "workspaceFolderBasename"; "file"; "relativeFile";
   "relativeFileDirname"; "fileBasename"; "fileBasenameNoExtension";
   "fileDirname"; "fileExtname"; "exportExtension"; "#"; "noMatch"].

(** [l.forEach(f)]: an exception of [f] ends the loop. *)
Fixpoint forEach {A} (f : A → M unit) (l : list A) : M unit :=
  match l with
  | [] => mret tt
  | x :: l' => f x;; forEach f l'
  end.

Section resolver.
Context `{PathApi}.

(** [vscode.workspace.getWorkspaceFolder]: [None] for [undefined], the
    answer for a file outside every workspace folder. *)
Variable getWorkspaceFolder : Uri → option WorkspaceFolder.

Definition fileBasenameNoExt (u : Uri) : string :=
  basename_ext (fsPath u) (extname (fsPath u)).

(** [match_] is the parameter [match]; a missing [exportExt] takes the
    default value of the parameter. *)
Definition evaluateSingleVariable (match_ variable : string)
    (resource : Uri) (exportExt : option string) : outcome string :=
  let exportExt := default "scad" exportExt in
  match getWorkspaceFolder resource with
  | None =>
      Throw (TypeError "Cannot read properties of undefined (reading 'uri')")
  | Some folder =>
      let workspaceFolder := fsPath (uri folder) in
      if bool_decide (variable = "workspaceFolder") then
        Return (or_else workspaceFolder match_)
      else if bool_decide (variable = "workspaceFolderBasename") then
        Return (or_else (basename workspaceFolder) match_)
      else if bool_decide (variable = "file") then
        Return (fsPath resource)
      else if bool_decide (variable = "relativeFile") then
        Return (relative workspaceFolder (fsPath resource))
      else if bool_decide (variable = "relativeFileDirname") then
        Return (basename (dirname (fsPath resource)))
      else if bool_decide (variable = "fileBasename") then
        Return (basename (fsPath resource))
      else if bool_decide (variable = "fileBasenameNoExtension") then
        Return (fileBasenameNoExt resource)
      else if bool_decide (variable = "fileDirname") then
        Return (dirname (fsPath resource))
      else if bool_decide (variable = "fileExtname") then
        Return (extname (fsPath resource))
      else if bool_decide (variable = "exportExtension") then
        if negb (bool_decide (exportExt = EmptyString)) then
          Return exportExt
        else Return match_     (* falls through to the default *)
      else
        Return match_          (* "#" and the default *)
  end.

(** The source text of [patternRegex]. *)
Definition patternRegex_source (pattern : string) : string :=
  replace_first "\$\{#\}" version_group
    (escapeStringRegexp (basename pattern)).

Definition fileDir_of (pattern : string) (resource : Uri) : string :=
  if isAbsolute pattern then dirname pattern
  else dirname (join (dirname (fsPath resource)) pattern).

(** The callback of [files.reduce]. *)
Definition reducer (patternRegex : regexp) (maxVer : number)
    (file : string) : number :=
  match exec patternRegex file with
  | Some matched => Math_max maxVer (Number (capture1 matched))
  | None => maxVer
  end.

(** The promise around [readdir] and its [await].  On an error the
    callback logs it and rejects with -2; it does not return, and the
    [reduce] of the undefined [files] that follows raises a TypeError
    inside the callback.  The rejection is what [await] throws. *)
Definition await_readdir (patternRegex : regexp) (fileDir : string)
  : M number :=
  r ← readdir fileDir;
  match r with
  | inl err =>
      console_error err;;
      emit (Uncaught
              (TypeError
                 "Cannot read properties of undefined (reading 'reduce')"));;
      throw (Thrown (Num (-2)))
  | inr entries =>
      mret (fold_left (reducer patternRegex) entries (Num 0))
  end.

Definition getVersionNumber (pattern : string) (resource : Uri)
  : M number :=
  if negb (includes VERSION_MARKER pattern) then mret (Num (-1))
  else
    match RegExp (patternRegex_source pattern) with
    | None => throw (SyntaxError "Invalid regular expression")
    | Some patternRegex =>
        let fileDir := fileDir_of pattern resource in
        present ← existsSync fileDir;
        (if negb present then mkdirSync fileDir else mret tt);;
        versionNum ← await_readdir patternRegex fileDir;
        console_log ("Version num: " +:+ to_String versionNum);;
        if lt_zero versionNum then mret versionNum
        else mret (succ versionNum)
    end.

(** A missing [pattern] takes the default value of the parameter. *)
Definition resolveString (pattern : option string) (resource : Uri)
    (exportExt : option string) : M string :=
  let pattern := default defaultPattern pattern in
  replaced ← lift
    (replace_variables
       (λ match_ variable,
          evaluateSingleVariable match_ variable resource exportExt)
       pattern);
  version ← getVersionNumber replaced resource;
  console_log ("Version number: " +:+ to_String version);;
  if bool_decide (version = Num (-1)) then mret replaced
  else if bool_decide (version = Num (-2)) then
    showErrorMessage
      "Could not read files in directory specified for export";;
    mret replaced
  else mret (replace_all VERSION_MARKER (to_String version) replaced).

(** [testVars]: one line of the console per name of [variables], after a
    heading. *)
Definition testVars (resource : Uri) : M unit :=
  console_log "Testing evaluateSingleVariable()...";;
  forEach
    (λ variable,
       value ← lift
         (evaluateSingleVariable ("${" +:+ variable +:+ "}") variable
            resource (Some "test"));
       console_log (variable +:+ " : " +:+ value))
    variables.

End resolver.

End VariableResolver.

(** ** Reference definitions

    What the claims say in their own words, to be compared with the
    definitions above. *)

Module Reference.
Import JsString JsNumber JsRegExp Effects VariableResolver.

(** The expression that matches the text [s] and nothing else. *)
Fixpoint literal (s : string) : regexp :=
  match s with
  | EmptyString => []
  | String c s' => RChar c :: literal s'
  end.

(** The text before and the text after the first version marker of [b]. *)
Fixpoint split_at_marker (b : string) : option (string * string) :=
  if startsWith "${#}" b then Some (EmptyString, slice_from 4 b)
  else match b with
       | EmptyString => None
       | String c b' =>
           prod_map (String c) id <$> split_at_marker b'
       end.

(** The basename taken literally, its first version marker replaced by the
    capture group. *)
Definition marker_to_group (b : string) : regexp :=
  match split_at_marker b with
  | Some (before, after) => literal before ++ RVersion :: literal after
  | None => literal b
  end.

(** A version as the capture group accepts it: a digit from 1 to 9, then
    digits. *)
Definition is_version (s : string) : bool :=
  match s with
  | EmptyString => false
  | String d ds => is_nonzero_digit d && all_digits ds
  end.

(** The captured numbers of the entries [re] matches. *)
Definition captured (re : regexp) (entries : list string) : list number :=
  omap (λ file, Number ∘ capture1 <$> exec re file) entries.

(** The intermediate string of [resolveString]: its constant [replaced],
    the pattern with every placeholder evaluated. *)
Definition intermediate `{PathApi}
    (getWorkspaceFolder : Uri → option WorkspaceFolder)
    (pattern : option string) (resource : Uri) (exportExt : option string)
  : outcome string :=
  replace_variables
    (λ match_ variable,
       evaluateSingleVariable getWorkspaceFolder match_ variable resource
         exportExt)
    (default defaultPattern pattern).

(** A name [VARIABLE_REGEXP] can capture: no closing brace and no line
    terminator in it. *)
Fixpoint capturable (name : string) : bool :=
  match name with
  | EmptyString => true
  | String c name' =>
      negb (bool_decide (c = "}"%char)) && negb (is_line_terminator c)
      && capturable name'
  end.

(** The names [evaluateSingleVariable] has a case for. *)
Definition supported : list string :=
  ["workspaceFolder"; "workspaceFolderBasename"; "file"; "relativeFile";
   "relativeFileDirname"; "fileBasename"; "fileBasenameNoExtension";
   "fileDirname"; "fileExtname"; "exportExtension"; "#"].

End Reference.

(** ** A concrete setting

    A POSIX system with the project [/proj], the file
    [/proj/src/part.scad] in it and a file outside every workspace
    folder. *)

Module Scenario.
Import JsString Effects.

Definition api : PathApi := Posix.api "/proj".

Definition project (u : Uri) : option WorkspaceFolder :=
  if startsWith "/proj/" (fsPath u)
  then Some {| uri := {| fsPath := "/proj" |} |}
  else None.

Definition part : Uri := {| fsPath := "/proj/src/part.scad" |}.

Definition stray : Uri := {| fsPath := "/tmp/part.scad" |}.

(** The disk: [/proj/src] holds [entries] and may be unreadable. *)
Definition disk (entries : list string) (readable : bool)
  : gmap string node :=
  <["/proj" := Dir ["src"] true true]>
    (<["/proj/src" := Dir entries readable true]> ∅).

Definition world (entries : list string) (readable : bool) : World :=
  mkWorld (disk entries readable) [].

End Scenario.

(** * Properties *)

(** ** Strings *)

Section string_facts.
Import JsString.

Lemma append_cons (c : ascii) (s t : string) :
  String c s +:+ t = String c (s +:+ t).
Proof. reflexivity. Qed.

Lemma append_empty_l (t : string) : EmptyString +:+ t = t.
Proof. reflexivity. Qed.

Lemma append_empty_r (s : string) : s +:+ EmptyString = s.
Proof. induction s as [|c s IH]; [done|]. by rewrite append_cons, IH. Qed.

Lemma append_assoc (s t u : string) : (s +:+ t) +:+ u = s +:+ (t +:+ u).
Proof.
  induction s as [|c s IH]; [done|]. by rewrite !append_cons, IH.
Qed.

Lemma length_append (s t : string) :
  String.length (s +:+ t) = (String.length s + String.length t)%nat.
Proof.
  induction s as [|c s IH]; [done|]. rewrite append_cons. simpl. by rewrite IH.
Qed.

Lemma startsWith_append (p r : string) : startsWith p (p +:+ r) = true.
Proof.
  induction p as [|c p IH]; [done|].
  rewrite append_cons. simpl. by rewrite bool_decide_eq_true_2, IH.
Qed.

Lemma slice_from_append (p r : string) :
  slice_from (String.length p) (p +:+ r) = r.
Proof. induction p as [|c p IH]; [by destruct r|]. by rewrite append_cons. Qed.

Lemma startsWith_inv (p s : string) :
  startsWith p s = true → s = p +:+ slice_from (String.length p) s.
Proof.
  revert s. induction p as [|c p IH]; intros s Hs.
  - by destruct s.
  - destruct s as [|d s]; [done|]. simpl in Hs.
    apply andb_true_iff in Hs as [Hc Hs]. apply bool_decide_eq_true in Hc.
    subst d. rewrite append_cons. simpl. f_equal. by apply IH.
Qed.

Lemma startsWith_iff (p s : string) :
  startsWith p s = true ↔ ∃ r, s = p +:+ r.
Proof.
  split.
  - intros Hs. eexists. by apply startsWith_inv.
  - intros [r ->]. apply startsWith_append.
Qed.

Lemma includes_append (needle a b : string) :
  includes needle (a +:+ needle +:+ b) = true.
Proof.
  induction a as [|c a IH].
  - rewrite append_empty_l. destruct (needle +:+ b) eqn:E; simpl;
      rewrite <- E, startsWith_append; done.
  - rewrite append_cons. simpl. rewrite IH. by rewrite orb_true_r.
Qed.

Lemma includes_inv (needle s : string) :
  includes needle s = true → ∃ a b, s = a +:+ needle +:+ b.
Proof.
  induction s as [|c s IH]; simpl; intros Hs.
  - rewrite orb_false_r in Hs. apply startsWith_inv in Hs.
    exists EmptyString. eexists. by rewrite append_empty_l.
  - apply orb_true_iff in Hs as [Hs|Hs].
    + apply startsWith_inv in Hs. exists EmptyString. eexists.
      by rewrite append_empty_l.
    + destruct (IH Hs) as (a & b & ->). exists (String c a), b.
      by rewrite append_cons.
Qed.

End string_facts.

(** ** The expression built from the basename *)

Section regexp_construction.
Import JsString EscapeStringRegexp JsRegExp Reference.

Lemma is_operator_cases (c : ascii) :
  is_operator c = true →
  c ∈ ["|"; "\"; "{"; "}"; "("; ")"; "["; "]"; "^"; "$"; "+"; "*"; "?"; "."]%char.
Proof.
  unfold is_operator. simpl. rewrite !orb_false_r, !andb_true_r.
  intros Hc. repeat (apply orb_true_iff in Hc as [Hc|Hc]);
    apply bool_decide_eq_true in Hc; subst c; set_solver.
Qed.

Lemma escape_char_operator (c : ascii) :
  is_operator c = true → escape_char c = String "\" (String c EmptyString).
Proof. intros Hc. unfold escape_char. by rewrite Hc. Qed.

(** The three shapes of an escaped character. *)
Lemma escape_char_cases (c : ascii) :
  (is_operator c = true ∧ escape_char c = String "\" (String c EmptyString))
  ∨ (c = "-"%char ∧ escape_char c = "\x2d")
  ∨ (is_operator c = false ∧ c ≠ "-"%char ∧ c ≠ "\"%char ∧ c ≠ "("%char
     ∧ escape_char c = String c EmptyString).
Proof.
  unfold escape_char. destruct (is_operator c) eqn:Hop; [by left|].
  right. case_bool_decide as Hc; [by left|].
  right. repeat split; try done; by intros ->.
Qed.

(** [RegExp] reads an escaped character as that character. *)
Lemma RegExp_from_escape_char (c : ascii) (t : string) :
  RegExp_from 0 (escape_char c +:+ t) = cons (RChar c) <$> RegExp_from 0 t.
Proof.
  destruct (escape_char_cases c) as [[Hop ->]|[[-> ->]|(Hop & H1 & H2 & H3 & ->)]].
  - rewrite !append_cons, append_empty_l.
    apply is_operator_cases in Hop.
    repeat (apply elem_of_cons in Hop as [->|Hop]; [reflexivity|]).
    by apply elem_of_nil in Hop.
  - reflexivity.
  - rewrite append_cons, append_empty_l. simpl.
    rewrite (bool_decide_eq_false_2 ("\"%char = c)) by done. simpl.
    rewrite (bool_decide_eq_false_2 (c = "\"%char)) by done.
    rewrite (bool_decide_eq_false_2 ("("%char = c)) by done. simpl.
    by rewrite Hop.
Qed.


Lemma RegExp_escaped (s : string) :
  RegExp (escapeStringRegexp s) = Some (literal s).
Proof.
  unfold RegExp. induction s as [|c s IH]; [done|].
  simpl. by rewrite RegExp_from_escape_char, IH.
Qed.

Lemma RegExp_group (t : string) :
  RegExp_from 0 (version_group +:+ t) = cons RVersion <$> RegExp_from 0 t.
Proof. reflexivity. Qed.

(** An escaped text never begins with a bare dollar. *)
Lemma escaped_not_dollar (m b : string) :
  startsWith (String "$" m) (escapeStringRegexp b) = false.
Proof.
  destruct b as [|c b]; [done|]. simpl.
  destruct (escape_char_cases c) as [[Hop ->]|[[-> ->]|(Hop & H1 & H2 & H3 & ->)]];
    try done.
  rewrite append_cons. simpl.
  rewrite bool_decide_eq_false_2; [done|]. by intros <-.
Qed.

Lemma startsWith_escaped_operator (d c : ascii) (m t : string) :
  is_operator d = true →
  startsWith (String "\" (String d m)) (escape_char c +:+ t)
  = bool_decide (d = c) && startsWith m t.
Proof.
  intros Hd.
  destruct (escape_char_cases c) as [[Hop ->]|[[-> ->]|(Hop & H1 & H2 & H3 & ->)]].
  - rewrite !append_cons, append_empty_l. reflexivity.
  - rewrite !append_cons. simpl.
    rewrite (bool_decide_eq_false_2 (d = "-"%char)) by (by intros ->).
    rewrite (bool_decide_eq_false_2 (d = "x"%char)) by (by intros ->).
    done.
  - rewrite append_cons. simpl.
    rewrite (bool_decide_eq_false_2 ("\"%char = c)) by done.
    rewrite (bool_decide_eq_false_2 (d = c)) by congruence. done.
Qed.

Lemma startsWith_escaped_plain (d c : ascii) (m t : string) :
  is_operator d = false → d ≠ "-"%char →
  startsWith (String d m) (escape_char c +:+ t)
  = bool_decide (d = c) && startsWith m t.
Proof.
  intros Hd Hd'.
  destruct (escape_char_cases c) as [[Hop ->]|[[-> ->]|(Hop & H1 & H2 & H3 & ->)]].
  - rewrite !append_cons. simpl.
    rewrite (bool_decide_eq_false_2 (d = "\"%char)) by (by intros ->).
    rewrite (bool_decide_eq_false_2 (d = c)) by congruence. done.
  - rewrite !append_cons. simpl.
    rewrite (bool_decide_eq_false_2 (d = "\"%char)) by (by intros ->).
    rewrite (bool_decide_eq_false_2 (d = "-"%char)) by done. done.
  - by rewrite append_cons, append_empty_l.
Qed.

(** The escaped marker stands in the escaped text exactly where the marker
    stands in the text. *)
Lemma startsWith_escaped_marker (b : string) :
  startsWith "\$\{#\}" (escapeStringRegexp b) = startsWith "${#}" b.
Proof.
  destruct b as [|c1 b]; [done|]. simpl escapeStringRegexp.
  rewrite startsWith_escaped_operator by done. simpl (startsWith _ (String _ _)).
  f_equal.
  destruct b as [|c2 b]; [done|]. simpl escapeStringRegexp.
  rewrite startsWith_escaped_operator by done. simpl (startsWith _ (String _ _)).
  f_equal.
  destruct b as [|c3 b]; [done|]. simpl escapeStringRegexp.
  rewrite startsWith_escaped_plain by done. simpl (startsWith _ (String _ _)).
  f_equal.
  destruct b as [|c4 b]; [done|]. simpl escapeStringRegexp.
  rewrite startsWith_escaped_operator by done. simpl (startsWith _ (String _ _)).
  done.
Qed.

Lemma replace_first_cons (needle repl : string) (c : ascii) (s : string) :
  replace_first needle repl (String c s)
  = if startsWith needle (String c s)
    then repl +:+ slice_from (String.length needle) (String c s)
    else String c (replace_first needle repl s).
Proof. reflexivity. Qed.

(** Where the text does not begin with the marker, the replacement passes
    over the escaped first character. *)
Lemma replace_first_escaped_step (repl : string) (c : ascii) (b : string) :
  startsWith "${#}" (String c b) = false →
  replace_first "\$\{#\}" repl (escapeStringRegexp (String c b))
  = escape_char c +:+ replace_first "\$\{#\}" repl (escapeStringRegexp b).
Proof.
  intros Hb. rewrite <- startsWith_escaped_marker in Hb.
  change (escapeStringRegexp (String c b))
    with (escape_char c +:+ escapeStringRegexp b) in *.
  destruct (escape_char_cases c) as [[Hop E]|[[-> E]|(Hop & H1 & H2 & H3 & E)]];
    rewrite E in Hb |- *.
  - rewrite !append_cons, append_empty_l in Hb |- *.
    rewrite replace_first_cons, Hb, replace_first_cons.
    destruct (decide (c = "\"%char)) as [->|Hc].
    + change (startsWith "\$\{#\}" (String "\" (escapeStringRegexp b)))
        with (startsWith "$\{#\}" (escapeStringRegexp b)).
      by rewrite escaped_not_dollar.
    + replace (startsWith "\$\{#\}" (String c (escapeStringRegexp b)))
        with false; [done|].
      simpl. by rewrite (bool_decide_eq_false_2 ("\"%char = c)).
  - rewrite !append_cons, append_empty_l. reflexivity.
  - rewrite !append_cons, append_empty_l in Hb |- *.
    by rewrite replace_first_cons, Hb.
Qed.

Lemma split_at_marker_cons (c : ascii) (b : string) :
  split_at_marker (String c b)
  = if startsWith "${#}" (String c b)
    then Some (EmptyString, slice_from 4 (String c b))
    else prod_map (String c) id <$> split_at_marker b.
Proof. reflexivity. Qed.

Lemma marker_to_group_cons (c : ascii) (b : string) :
  marker_to_group (String c b)
  = if startsWith "${#}" (String c b)
    then RVersion :: literal (slice_from 4 (String c b))
    else RChar c :: marker_to_group b.
Proof.
  unfold marker_to_group. rewrite split_at_marker_cons.
  destruct (startsWith "${#}" (String c b)); [done|].
  by destruct (split_at_marker b) as [[before after]|].
Qed.

(** The source text of the expression, read by [RegExp], is the basename
    taken literally with its first marker replaced by the capture group. *)
Lemma RegExp_marker_to_group (b : string) :
  RegExp (replace_first "\$\{#\}" version_group (escapeStringRegexp b))
  = Some (marker_to_group b).
Proof.
  unfold RegExp. induction b as [|c b IH]; [done|].
  rewrite marker_to_group_cons.
  destruct (startsWith "${#}" (String c b)) eqn:Hb.
  - apply startsWith_inv in Hb.
    change (slice_from 4 (String c b))
      with (slice_from (String.length "${#}") (String c b)).
    set (r := slice_from (String.length "${#}") (String c b)) in *.
    rewrite Hb.
    change (escapeStringRegexp ("${#}" +:+ r))
      with ("\$\{#\}" +:+ escapeStringRegexp r).
    change (replace_first "\$\{#\}" version_group
              ("\$\{#\}" +:+ escapeStringRegexp r))
      with (version_group +:+ escapeStringRegexp r).
    rewrite RegExp_group. fold (RegExp (escapeStringRegexp r)).
    by rewrite RegExp_escaped.
  - rewrite replace_first_escaped_step by done.
    by rewrite RegExp_from_escape_char, IH.
Qed.

End regexp_construction.

(** ** The matcher *)

Section matcher.
Import JsString JsNumber JsRegExp Reference.

Lemma split_at_marker_Some (b before after : string) :
  split_at_marker b = Some (before, after) →
  b = before +:+ "${#}" +:+ after ∧ includes "${#}" before = false.
Proof.
  revert before. induction b as [|c b IH]; intros before; [done|].
  rewrite split_at_marker_cons.
  destruct (startsWith "${#}" (String c b)) eqn:Hb.
  - intros [= <- <-]. split; [|done]. by apply startsWith_inv in Hb.
  - destruct (split_at_marker b) as [[p q]|] eqn:E; [|done].
    intros [= <- <-]. destruct (IH p eq_refl) as [-> Hp].
    split; [done|]. simpl in Hb |- *.
    rewrite Hp, orb_false_r.
    destruct p as [|p1 [|p2 [|p3 [|p4 p]]]]; simpl in *;
      repeat (case_bool_decide; simpl in *; try done).
Qed.

Lemma split_at_marker_None (b : string) :
  split_at_marker b = None ↔ includes "${#}" b = false.
Proof.
  induction b as [|c b IH]; [done|].
  rewrite split_at_marker_cons. cbn [includes].
  destruct (startsWith "${#}" (String c b)); [done|].
  rewrite orb_false_l, <- IH.
  by destruct (split_at_marker b).
Qed.

Lemma literal_app (p q : string) : literal (p +:+ q) = literal p ++ literal q.
Proof.
  induction p as [|c p IH]; [done|]. rewrite append_cons. simpl. by rewrite IH.
Qed.

(** Literals consume exactly their text. *)
Lemma match_here_literal (p : string) (re : regexp) (s : string) :
  match_here (literal p ++ re) s
  = if startsWith p s then match_here re (slice_from (String.length p) s)
    else None.
Proof.
  revert s. induction p as [|c p IH]; intros s; [done|].
  destruct s as [|d s]; [done|]. simpl. rewrite IH.
  by case_bool_decide.
Qed.

Lemma match_here_literal_nil (p s : string) :
  match_here (literal p) s = if startsWith p s then Some [] else None.
Proof.
  rewrite <- (app_nil_r (literal p)), match_here_literal.
  by destruct (startsWith p s).
Qed.

Lemma digits_then_sound k (cap s : string) r :
  digits_then k cap s = Some r →
  ∃ ds s', s = ds +:+ s' ∧ all_digits ds = true ∧ k (cap +:+ ds) s' = Some r.
Proof.
  revert cap. induction s as [|d s IH]; intros cap; simpl.
  - intros Hk. exists EmptyString, EmptyString. rewrite !append_empty_r. by repeat split.
  - destruct (is_digit d) eqn:Hd.
    + destruct (digits_then k (cap +:+ String d EmptyString) s) as [r'|] eqn:E.
      * intros [= ->]. destruct (IH _ E) as (ds & s' & -> & Hds & Hk).
        exists (String d ds), s'. rewrite append_assoc in Hk.
        split; [done|]. split; [|done]. simpl. by rewrite Hd.
      * intros Hk. exists EmptyString, (String d s).
        rewrite !append_empty_r. by repeat split.
    + intros Hk. exists EmptyString, (String d s).
      rewrite !append_empty_r. by repeat split.
Qed.

Lemma digits_then_complete k (cap ds s' : string) :
  all_digits ds = true →
  is_Some (k (cap +:+ ds) s') →
  is_Some (digits_then k cap (ds +:+ s')).
Proof.
  revert cap. induction ds as [|d ds IH]; intros cap Hds Hk.
  - rewrite append_empty_r in Hk. rewrite append_empty_l.
    destruct s' as [|d s]; [done|]. simpl.
    destruct (is_digit d); [|done].
    by destruct (digits_then k (cap +:+ String d EmptyString) s).
  - simpl in Hds. apply andb_true_iff in Hds as [Hd Hds].
    rewrite append_cons. simpl. rewrite Hd.
    destruct (IH (cap +:+ String d EmptyString) Hds) as [r ->]; [|done].
    by rewrite append_assoc.
Qed.

Lemma match_here_version_sound (re : regexp) (s : string) caps :
  match_here (RVersion :: re) s = Some caps →
  ∃ v s' rest, s = v +:+ s' ∧ is_version v = true ∧ caps = v :: rest
               ∧ match_here re s' = Some rest.
Proof.
  destruct s as [|d s]; [done|]. simpl.
  destruct (is_nonzero_digit d) eqn:Hd; [|done].
  intros Hm. apply digits_then_sound in Hm as (ds & s' & -> & Hds & Hk).
  destruct (match_here re s') as [rest|] eqn:E; [|done].
  injection Hk as <-.
  exists (String d ds), s', rest. simpl. by rewrite Hd, Hds.
Qed.

Lemma match_here_version_complete (re : regexp) (v s' : string) :
  is_version v = true → is_Some (match_here re s') →
  is_Some (match_here (RVersion :: re) (v +:+ s')).
Proof.
  destruct v as [|d ds]; [done|]. simpl.
  intros [Hd Hds]%andb_true_iff [rest Hre]. rewrite Hd.
  apply digits_then_complete; [done|]. by rewrite Hre.
Qed.

Lemma exec_sound (re : regexp) (s : string) caps :
  exec re s = Some caps →
  ∃ pre s', s = pre +:+ s' ∧ match_here re s' = Some caps.
Proof.
  induction s as [|c s IH]; simpl.
  - destruct (match_here re EmptyString) eqn:E; [|done].
    intros [= ->]. by exists EmptyString, EmptyString.
  - destruct (match_here re (String c s)) eqn:E.
    + intros [= ->]. by exists EmptyString, (String c s).
    + intros (pre & s' & -> & Hm)%IH. by exists (String c pre), s'.
Qed.

Lemma exec_complete (re : regexp) (pre s' : string) :
  is_Some (match_here re s') → is_Some (exec re (pre +:+ s')).
Proof.
  intros [caps Hm]. induction pre as [|c pre IH].
  - rewrite append_empty_l. destruct s'; simpl; by rewrite Hm.
  - rewrite append_cons. simpl.
    by destruct (match_here re (String c (pre +:+ s'))).
Qed.

(** With a marker in the basename, a match captures a version and the
    entry holds the basename with that version in place of the marker. *)
Lemma exec_group_sound (b before after file : string) caps :
  split_at_marker b = Some (before, after) →
  exec (marker_to_group b) file = Some caps →
  ∃ v x y, caps = [v] ∧ is_version v = true
           ∧ file = x +:+ before +:+ v +:+ after +:+ y.
Proof.
  unfold marker_to_group. intros -> (x & s' & -> & Hm)%exec_sound.
  rewrite match_here_literal in Hm.
  destruct (startsWith before s') eqn:Hp; [|done].
  apply startsWith_inv in Hp. rewrite Hp. clear Hp.
  apply match_here_version_sound in Hm as (v & s'' & rest & -> & Hv & -> & Hm).
  rewrite match_here_literal_nil in Hm.
  destruct (startsWith after s'') eqn:Hq; [|done]. injection Hm as <-.
  apply startsWith_inv in Hq. rewrite Hq. by exists v, x; eexists.
Qed.

Lemma exec_group_complete (b before after v x y : string) :
  split_at_marker b = Some (before, after) →
  is_version v = true →
  is_Some (exec (marker_to_group b) (x +:+ before +:+ v +:+ after +:+ y)).
Proof.
  unfold marker_to_group. intros -> Hv. apply exec_complete.
  rewrite match_here_literal, startsWith_append, slice_from_append.
  apply match_here_version_complete; [done|].
  by rewrite match_here_literal_nil, startsWith_append.
Qed.

(** Without a marker in the basename there is nothing to capture. *)
Lemma exec_literal_captures (b file : string) caps :
  split_at_marker b = None →
  exec (marker_to_group b) file = Some caps → caps = [].
Proof.
  unfold marker_to_group. intros -> (x & s' & -> & Hm)%exec_sound.
  rewrite match_here_literal_nil in Hm.
  destruct (startsWith b s'); congruence.
Qed.

(** Where the text before the marker is followed by a zero, the expression
    does not match in place. *)
Lemma match_here_leading_zero (b before after rest : string) :
  split_at_marker b = Some (before, after) →
  match_here (marker_to_group b) (before +:+ String "0" rest) = None.
Proof.
  unfold marker_to_group. intros ->.
  by rewrite match_here_literal, startsWith_append, slice_from_append.
Qed.

End matcher.

(** ** Rounding to doubles *)

Section doubles.
Import JsString JsNumber.

(** A number of [e + 1] bits rounds into the interval from 2^e to
    2^(e+1). *)
Lemma nearest_nat_bounds (z : Z) :
  1 ≤ z → 2 ^ Z.log2 z ≤ nearest_nat z ≤ 2 ^ (Z.log2 z + 1).
Proof.
  intros Hz. unfold nearest_nat.
  destruct (Z.log2_spec z) as [Hlo Hhi]; [lia|].
  pose proof (Z.log2_nonneg z) as He.
  replace (Z.succ (Z.log2 z)) with (Z.log2 z + 1) in Hhi by lia.
  set (e := Z.log2 z) in *.
  destruct (decide (e ≤ 52)) as [Hsmall|Hbig].
  - rewrite Z.max_l by lia. change (2 ^ 0) with 1.
    rewrite Z.div_1_r, Z.mod_1_r. simpl. lia.
  - rewrite Z.max_r by lia.
    assert (0 < 2 ^ (e - 52)) as Hu by (apply Z.pow_pos_nonneg; lia).
    assert (2 ^ e = 2 ^ 52 * 2 ^ (e - 52)) as E1
      by (rewrite <- Z.pow_add_r by lia; f_equal; lia).
    assert (2 ^ (e + 1) = 2 ^ 53 * 2 ^ (e - 52)) as E2
      by (rewrite <- Z.pow_add_r by lia; f_equal; lia).
    set (u := 2 ^ (e - 52)) in *.
    pose proof (Z.div_mod z u ltac:(lia)) as Hdm.
    pose proof (Z.mod_pos_bound z u Hu) as Hr.
    assert (2 ^ 52 ≤ z / u) as Hq1 by (apply Z.div_le_lower_bound; lia).
    assert (z / u < 2 ^ 53) as Hq2 by (apply Z.div_lt_upper_bound; lia).
    rewrite E1, E2.
    destruct (_ || _); nia.
Qed.

(** Up to 2^53 every integer is a double. *)
Lemma nearest_nat_safe (z : Z) : 0 ≤ z ≤ 2 ^ 53 → nearest_nat z = z.
Proof.
  intros Hz. unfold nearest_nat.
  destruct (decide (z = 2 ^ 53)) as [->|Hne]; [done|].
  assert (Z.log2 z ≤ 52) as He.
  { destruct (decide (z = 0)) as [->|?]; [done|].
    assert (Z.log2 z < 53); [|lia]. apply Z.log2_lt_pow2; lia. }
  rewrite Z.max_l by lia. change (2 ^ 0) with 1.
  rewrite Z.div_1_r, Z.mod_1_r. simpl. lia.
Qed.

(** Rounding keeps the order. *)
Lemma nearest_nat_mono (a b : Z) :
  0 ≤ a ≤ b → nearest_nat a ≤ nearest_nat b.
Proof.
  intros [Ha Hab].
  destruct (decide (a = 0)) as [->|Ha0].
  { destruct (decide (b = 0)) as [->|Hb0]; [done|].
    pose proof (nearest_nat_bounds b ltac:(lia)) as [Hb _].
    assert (0 < 2 ^ Z.log2 b)
      by (apply Z.pow_pos_nonneg; [lia|apply Z.log2_nonneg]).
    change (nearest_nat 0) with 0. lia. }
  pose proof (Z.log2_le_mono a b Hab) as He.
  pose proof (nearest_nat_bounds a ltac:(lia)) as [_ Hua].
  pose proof (nearest_nat_bounds b ltac:(lia)) as [Hlb _].
  destruct (decide (Z.log2 a = Z.log2 b)) as [Heq|Hne].
  - clear Hua Hlb. unfold nearest_nat. rewrite Heq.
    assert (0 < 2 ^ Z.max 0 (Z.log2 b - 52)) as Hu
      by (apply Z.pow_pos_nonneg; lia).
    set (u := 2 ^ Z.max 0 (Z.log2 b - 52)) in *.
    pose proof (Z.div_mod a u ltac:(lia)) as Hda.
    pose proof (Z.mod_pos_bound a u Hu) as Hra.
    pose proof (Z.div_mod b u ltac:(lia)) as Hdb.
    pose proof (Z.mod_pos_bound b u Hu) as Hrb.
    pose proof (Z.div_le_mono a b u Hu Hab) as Hq.
    destruct (decide (a / u = b / u)) as [Hqe|Hqn].
    + rewrite Hqe in *.
      destruct (Z.ltb_spec (2 * (a mod u)) u), (Z.eqb_spec (2 * (a mod u)) u),
        (Z.ltb_spec (2 * (b mod u)) u), (Z.eqb_spec (2 * (b mod u)) u),
        (Z.even (b / u)); simpl; nia.
    + assert (a / u + 1 ≤ b / u) by lia.
      assert ((a / u + 1) * u ≤ b / u * u) by nia.
      destruct (_ || _), (_ || _); nia.
  - assert (2 ^ (Z.log2 a + 1) ≤ 2 ^ Z.log2 b)
      by (apply Z.pow_le_mono_r; lia).
    lia.
Qed.

Lemma nearest_nonneg (z : Z) : 0 ≤ z → nearest z = nearest_nat z.
Proof.
  intros Hz. unfold nearest. rewrite Z.abs_eq by done.
  destruct z as [|p|p]; [done| |lia]. simpl Z.sgn. lia.
Qed.

Lemma nearest_safe (z : Z) : 0 ≤ z ≤ 2 ^ 53 → nearest z = z.
Proof. intros Hz. rewrite nearest_nonneg by lia. by apply nearest_nat_safe. Qed.

Lemma nearest_mono (a b : Z) : 0 ≤ a ≤ b → nearest a ≤ nearest b.
Proof.
  intros Hab. rewrite !nearest_nonneg by lia. by apply nearest_nat_mono.
Qed.

Lemma double_safe (z : Z) : 0 ≤ z ≤ 2 ^ 53 → double z = Num z.
Proof.
  intros Hz. unfold double. rewrite nearest_safe by done.
  assert (2 ^ 53 < 2 ^ 1024) by (by apply Z.pow_lt_mono_r).
  by rewrite (proj2 (Z.leb_gt (2 ^ 1024) z)) by lia.
Qed.

(** What an integer rounds to is a finite double or [Infinity]. *)
Lemma double_cases (z : Z) :
  double z = Num (nearest z) ∨ double z = Infinity.
Proof. unfold double. destruct (_ <=? _); auto. Qed.

Lemma double_Num (z x : Z) : double z = Num x → x = nearest z.
Proof. unfold double. destruct (_ <=? _); [done|]. by intros [= <-]. Qed.

(** A double is not below a safe integer the rounded number is not
    below. *)
Lemma double_lower (c z x : Z) :
  0 ≤ c ≤ 2 ^ 53 → c ≤ z → double z = Num x → c ≤ x.
Proof.
  intros Hc Hz ->%double_Num.
  rewrite <- (nearest_safe c) by done. apply nearest_mono. lia.
Qed.

Lemma double_mono (a b x y : Z) :
  0 ≤ a ≤ b → double a = Num x → double b = Num y → x ≤ y.
Proof. intros Hab ->%double_Num ->%double_Num. by apply nearest_mono. Qed.

(** Only itself rounds to a double below 2^53. *)
Lemma double_safe_inv (c x : Z) :
  0 ≤ c → double c = Num x → x < 2 ^ 53 → c = x.
Proof.
  intros Hc Hx Hsafe. destruct (decide (c ≤ 2 ^ 53)) as [Hle|Hgt].
  - rewrite double_safe in Hx by lia. by injection Hx.
  - pose proof (double_lower (2 ^ 53) c x ltac:(lia) ltac:(lia) Hx). lia.
Qed.

(** [a + 1] is exact up to 2^53. *)
Lemma succ_safe (m : Z) : 0 ≤ m < 2 ^ 53 → succ (Num m) = Num (m + 1).
Proof. intros Hm. unfold succ. apply double_safe. lia. Qed.

Lemma succ_positive (m x : Z) : 0 ≤ m → succ (Num m) = Num x → 1 ≤ x.
Proof. intros Hm Hx. apply (double_lower 1 (m + 1) x); [lia|lia|done]. Qed.

Lemma succ_mono (a b x y : Z) :
  0 ≤ a ≤ b → succ (Num a) = Num x → succ (Num b) = Num y → x ≤ y.
Proof. intros Hab. apply double_mono. lia. Qed.

Lemma shortest_safe (x : Z) (m : nat) :
  0 ≤ x < 2 ^ 53 → shortest x m = x.
Proof.
  intros Hx. induction m as [|m IH]; [done|].
  cbn [shortest]. cbv zeta.
  assert (0 < 10 ^ Z.of_nat (S m)) as Hp by (apply Z.pow_pos_nonneg; lia).
  set (p := 10 ^ Z.of_nat (S m)) in *.
  assert (0 ≤ x / p * p) as Hlo.
  { apply Z.mul_nonneg_nonneg; [apply Z.div_pos|]; lia. }
  repeat case_bool_decide; cbn [andb];
    repeat match goal with
      | E : double ?c = Num x |- _ =>
          apply double_safe_inv in E; [|lia|lia]
      end;
    try done; try lia.
Qed.

(** Up to 2^53 [String] writes the decimal digits of the number. *)
Lemma to_String_safe (V : Z) :
  0 ≤ V ≤ 2 ^ 53 → to_String (Num V) = pretty V.
Proof.
  intros HV. destruct (decide (V = 2 ^ 53)) as [->|Hne]; [by vm_compute|].
  unfold to_String. cbv zeta. rewrite Z.abs_eq by lia.
  unfold shortest_decimal. rewrite shortest_safe by lia.
  rewrite (proj2 (Z.ltb_ge V 0)) by lia.
  assert (2 ^ 53 < 10 ^ 21) by done.
  by rewrite (proj2 (Z.ltb_lt V (10 ^ 21))) by lia.
Qed.

(** The arithmetic at work: beyond 2^53 conversions and sums round, a
    number of 310 digits is [Infinity], and [String] writes the shortest
    digits that read back, with an exponent from 10^21. *)
Lemma double_arithmetic :
  Number (Some "9007199254740993") = Num 9007199254740992
  ∧ Number (Some "9007199254740995") = Num 9007199254740996
  ∧ Number (Some (pretty (10 ^ 309))) = Infinity
  ∧ succ (Num 9007199254740991) = Num 9007199254740992
  ∧ succ (Num 9007199254740992) = Num 9007199254740992
  ∧ succ (Num 9007199254740994) = Num 9007199254740996
  ∧ to_String (Num 9007199254740992) = "9007199254740992"
  ∧ to_String (Num (2 ^ 64)) = "18446744073709552000"
  ∧ to_String (Num (10 ^ 21)) = "1e+21"
  ∧ to_String (Num (2 ^ 70)) = "1.1805916207174113e+21"
  ∧ to_String (Num (2 ^ 1024 - 2 ^ 971)) = "1.7976931348623157e+308"
  ∧ to_String (Num (-1)) = "-1".
Proof. repeat split; vm_compute; reflexivity. Qed.

End doubles.

(** ** Replacing every version marker *)

Section replace_facts.
Import JsString JsNumber VariableResolver.

Lemma replace_all_from_cons (needle repl : string) (skip : nat) (c : ascii)
    (s : string) :
  replace_all_from needle repl skip (String c s)
  = match skip with
    | S k => replace_all_from needle repl k s
    | O =>
        if startsWith needle (String c s)
        then repl +:+ replace_all_from needle repl
                        (Nat.pred (String.length needle)) s
        else String c (replace_all_from needle repl O s)
    end.
Proof. reflexivity. Qed.

Lemma startsWith_length (p s : string) :
  startsWith p s = true → (String.length p ≤ String.length s)%nat.
Proof.
  intros Hs%startsWith_inv. rewrite Hs, length_append. lia.
Qed.

(** No proper end of the marker is a beginning of it, so a marker that
    begins inside [a] ends inside [a]. *)
Lemma marker_no_overlap (a b : string) :
  a ≠ EmptyString →
  startsWith VERSION_MARKER (a +:+ VERSION_MARKER +:+ b)
  = startsWith VERSION_MARKER a.
Proof.
  intros Ha. unfold VERSION_MARKER.
  destruct a as [|a1 [|a2 [|a3 [|a4 a]]]]; [done|..];
    rewrite ?append_cons, ?append_empty_l; simpl;
    repeat (case_bool_decide; simpl; try done); congruence.
Qed.

(** Every marker is replaced: around any one of them, the text before and
    the text after are treated on their own. *)
Lemma replace_all_from_marker (v : string) (skip : nat) (a b : string) :
  (skip ≤ String.length a)%nat →
  replace_all_from VERSION_MARKER v skip (a +:+ VERSION_MARKER +:+ b)
  = replace_all_from VERSION_MARKER v skip a
    +:+ v +:+ replace_all VERSION_MARKER v b.
Proof.
  revert skip. induction a as [|c a IH]; intros skip Hskip.
  - simpl in Hskip. assert (skip = 0%nat) as -> by lia.
    rewrite !append_empty_l. reflexivity.
  - rewrite append_cons, !replace_all_from_cons.
    destruct skip as [|k]; [|apply IH; simpl in Hskip; lia].
    rewrite <- append_cons, marker_no_overlap by done.
    destruct (startsWith VERSION_MARKER (String c a)) eqn:Hc.
    + apply startsWith_length in Hc. simpl in Hc.
      cbn [String.length VERSION_MARKER Nat.pred].
      rewrite IH by (simpl; lia). by rewrite append_assoc.
    + by rewrite IH, append_cons by lia.
Qed.

Lemma replace_all_marker (v a b : string) :
  replace_all VERSION_MARKER v (a +:+ VERSION_MARKER +:+ b)
  = replace_all VERSION_MARKER v a +:+ v +:+ replace_all VERSION_MARKER v b.
Proof. apply replace_all_from_marker. lia. Qed.

(** A text without marker is left as it is. *)
Lemma replace_all_without_marker (v s : string) :
  includes VERSION_MARKER s = false → replace_all VERSION_MARKER v s = s.
Proof.
  unfold replace_all. induction s as [|c s IH]; [done|].
  cbn [includes]. intros [Hc Hs]%orb_false_iff.
  by rewrite replace_all_from_cons, Hc, IH.
Qed.

Lemma all_digits_app (d s : string) :
  all_digits (d +:+ s) = all_digits d && all_digits s.
Proof.
  induction d as [|c d IH]; [done|].
  rewrite append_cons. simpl. by rewrite IH, andb_assoc.
Qed.

Lemma decimal_value_app (acc : Z) (d s : string) :
  decimal_value acc (d +:+ s) = decimal_value (decimal_value acc d) s.
Proof.
  revert acc. induction d as [|c d IH]; intros acc; [done|].
  rewrite append_cons. simpl. by rewrite IH.
Qed.

Lemma pretty_N_char_digit (y : N) :
  (y < 10)%N →
  is_digit (pretty_N_char y) = true
  ∧ digit_value (pretty_N_char y) = Z.of_N y.
Proof.
  intros Hy.
  assert (y = 0 ∨ y = 1 ∨ y = 2 ∨ y = 3 ∨ y = 4 ∨ y = 5 ∨ y = 6 ∨ y = 7
          ∨ y = 8 ∨ y = 9)%N as Hcases by lia.
  repeat (destruct Hcases as [->|Hcases]; [done|]). by subst y.
Qed.

(** The digits [pretty_N_go] puts in front of [s] are the decimal digits
    of [x], the most significant one first. *)
Lemma pretty_N_go_digits (x : N) (s : string) :
  ∃ d, pretty_N_go x s = d +:+ s
       ∧ all_digits d = true
       ∧ (∀ acc, decimal_value acc d
                 = acc * 10 ^ Z.of_nat (String.length d) + Z.of_N x)
       ∧ ((0 < x)%N → d ≠ EmptyString).
Proof.
  revert s. induction (N.lt_wf_0 x) as [x _ IH]; intros s.
  destruct (decide (0 < x)%N) as [Hx|Hx].
  - rewrite pretty_N_go_step by done.
    destruct (IH (x `div` 10)%N) with
      (s := String (pretty_N_char (x `mod` 10)) s)
      as (d & -> & Hd & Hval & _).
    { apply N.div_lt; lia. }
    destruct (pretty_N_char_digit (x `mod` 10)) as [Hc Hcv].
    { apply N.mod_lt. lia. }
    exists (d +:+ String (pretty_N_char (x `mod` 10)) EmptyString).
    split; [by rewrite append_assoc|]. split.
    { rewrite all_digits_app, Hd. simpl. by rewrite Hc. }
    split.
    + intros acc. rewrite decimal_value_app, Hval, length_append. simpl.
      rewrite Hcv, Nat2Z.inj_add, Z.pow_add_r by lia.
      rewrite (N.div_mod x 10) at 3 by lia. lia.
    + intros _. by destruct d.
  - assert (x = 0%N) as -> by lia. exists EmptyString.
    rewrite pretty_N_go_0. split; [done|]. split; [done|]. split; [|lia].
    intros acc. simpl. lia.
Qed.

(** [String(V)] of an integer that is not negative: its decimal digits,
    at least one, which [Number] reads back as [V]. *)
Lemma pretty_decimal (V : Z) :
  0 ≤ V →
  ∃ d ds, pretty V = String d ds
          ∧ is_digit d = true ∧ all_digits ds = true
          ∧ decimal_value 0 (pretty V) = V.
Proof.
  intros HV. unfold pretty, pretty_Z.
  destruct V as [|p|p]; [by exists "0"%char, EmptyString| |lia].
  unfold pretty, pretty_positive, pretty, pretty_N.
  rewrite decide_False by done.
  destruct (pretty_N_go_digits (N.pos p) EmptyString)
    as (d & -> & Hd & Hval & Hne).
  rewrite append_empty_r. destruct d as [|c d]; [by destruct Hne|].
  exists c, d. simpl in Hd. apply andb_true_iff in Hd as [Hc Hd].
  split; [done|]. split; [done|]. split; [done|]. by rewrite Hval.
Qed.

(** Up to 2^53 [String(V)] is a string of digits that reads back as
    [V]. *)
Lemma to_String_decimal (V : Z) :
  0 ≤ V ≤ 2 ^ 53 →
  ∃ d ds, to_String (Num V) = String d ds
          ∧ is_digit d = true ∧ all_digits ds = true
          ∧ Number (Some (to_String (Num V))) = Num V.
Proof.
  intros HV. rewrite to_String_safe by done.
  destruct (pretty_decimal V) as (d & ds & Hs & Hd & Hds & Hval); [lia|].
  exists d, ds. split; [done|]. split; [done|]. split; [done|].
  unfold Number. rewrite Hs in Hval |- *. simpl all_digits.
  rewrite Hd, Hds. simpl andb. cbv iota. rewrite Hval.
  by apply double_safe.
Qed.

Lemma startsWith_marker_digit (c : ascii) (s : string) :
  is_digit c = true → startsWith VERSION_MARKER (String c s) = false.
Proof.
  intros Hc. simpl. case_bool_decide as E; [|done]. by rewrite <- E in Hc.
Qed.

Lemma includes_marker_digits (v t : string) :
  all_digits v = true →
  includes VERSION_MARKER (v +:+ t) = includes VERSION_MARKER t.
Proof.
  induction v as [|c v IH]; [done|]. intros Hv. simpl in Hv.
  apply andb_true_iff in Hv as [Hc Hv]. rewrite append_cons.
  change (includes ?n (String ?a ?r))
    with (startsWith n (String a r) || includes n r).
  by rewrite startsWith_marker_digit, IH.
Qed.

(** What the output begins with, as long as it is no digit, the input
    begins with. *)
Lemma replace_all_prefix (m : string) (d : ascii) (v s : string) :
  is_digit d = true →
  (∀ a b, m = a +:+ String d b → False) →
  startsWith m (replace_all VERSION_MARKER (String d v) s) = true →
  startsWith m s = true.
Proof.
  intros Hd. unfold replace_all. revert s.
  induction m as [|c m IH]; intros s Hm; [done|].
  destruct s as [|e s]; [done|]. rewrite replace_all_from_cons.
  destruct (startsWith VERSION_MARKER (String e s)).
  - rewrite append_cons. simpl. case_bool_decide as E; [|done].
    destruct (Hm EmptyString m). by rewrite E.
  - simpl. intros [Hc Hs]%andb_true_iff. rewrite Hc. simpl.
    apply IH; [|done]. intros a b ->. by apply (Hm (String c a) b).
Qed.

Lemma replace_all_not_marker_start (d : ascii) (v s : string) :
  is_digit d = true →
  startsWith VERSION_MARKER (replace_all VERSION_MARKER (String d v) s) = false.
Proof.
  intros Hd.
  destruct (startsWith VERSION_MARKER (replace_all _ _ s)) eqn:E; [|done].
  pose proof E as Hs. apply replace_all_prefix in Hs; [|done|].
  - unfold replace_all in E. destruct s as [|e s]; [done|].
    rewrite replace_all_from_cons, Hs, append_cons in E.
    by rewrite startsWith_marker_digit in E.
  - intros a b Hab. unfold VERSION_MARKER in Hab.
    destruct a as [|a1 [|a2 [|a3 [|a4 a]]]];
      rewrite ?append_cons, ?append_empty_l in Hab; simplify_eq;
      try (by vm_compute in Hd).
    by destruct a.
Qed.

(** After the replacement by a number no marker is left. *)
Lemma replace_all_from_no_marker_left (d : ascii) (v : string) (skip : nat)
    (s : string) :
  is_digit d = true → all_digits v = true →
  includes VERSION_MARKER
    (replace_all_from VERSION_MARKER (String d v) skip s) = false.
Proof.
  intros Hd Hv. revert skip.
  induction s as [|c s IH]; intros skip; [done|].
  destruct skip as [|k]; [|by rewrite replace_all_from_cons].
  pose proof (replace_all_not_marker_start d v (String c s) Hd) as Hstart.
  unfold replace_all in Hstart. rewrite replace_all_from_cons in Hstart |- *.
  destruct (startsWith VERSION_MARKER (String c s)).
  - rewrite includes_marker_digits; [apply IH|]. simpl. by rewrite Hd, Hv.
  - cbn [includes]. by rewrite Hstart, IH.
Qed.

End replace_facts.

(** ** Numbers and the maximum *)

Section numbers.
Import JsString JsNumber JsRegExp Reference VariableResolver.

Lemma is_digit_value (c : ascii) :
  is_digit c = true → 0 ≤ digit_value c ≤ 9.
Proof. unfold is_digit, digit_value. lia. Qed.

Lemma is_nonzero_digit_value (c : ascii) :
  is_nonzero_digit c = true → 1 ≤ digit_value c ≤ 9.
Proof. unfold is_nonzero_digit, digit_value. lia. Qed.

Lemma is_nonzero_digit_is_digit (c : ascii) :
  is_nonzero_digit c = true → is_digit c = true.
Proof. unfold is_nonzero_digit, is_digit. lia. Qed.

Lemma decimal_value_ge (acc : Z) (s : string) :
  all_digits s = true → 0 ≤ acc → acc ≤ decimal_value acc s.
Proof.
  revert acc. induction s as [|c s IH]; intros acc Hs Hacc; simpl; [lia|].
  simpl in Hs. apply andb_true_iff in Hs as [Hc Hs].
  apply is_digit_value in Hc. etrans; [|apply IH]; [lia|done|lia].
Qed.

Lemma is_version_all_digits (v : string) :
  is_version v = true → all_digits v = true.
Proof.
  destruct v as [|d ds]; [done|]. simpl.
  intros [Hd ->]%andb_true_iff. by rewrite is_nonzero_digit_is_digit.
Qed.

(** A captured version converts to an integer that is at least 1, or to
    [Infinity] when it has too many digits for a double. *)
Lemma Number_version (v : string) :
  is_version v = true →
  (∃ n, Number (Some v) = Num n ∧ 1 ≤ n) ∨ Number (Some v) = Infinity.
Proof.
  intros Hv. unfold Number. rewrite is_version_all_digits by done.
  destruct (double_cases (decimal_value 0 v)) as [E|E]; [|by right].
  left. eexists. split; [exact E|].
  apply (double_lower 1 (decimal_value 0 v) _); [lia| |done].
  destruct v as [|d ds]; [done|]. simpl in Hv |- *.
  apply andb_true_iff in Hv as [Hd Hds].
  apply is_nonzero_digit_value in Hd.
  etrans; [|apply decimal_value_ge]; [lia|done|lia].
Qed.


(** A capture never converts to a negative number. *)
Lemma Number_nonneg (c : option string) (n : Z) : Number c = Num n → 0 ≤ n.
Proof.
  destruct c as [s|]; [|done]. unfold Number.
  destruct (all_digits s) eqn:Hs; [|done]. intros Hn.
  apply (double_lower 0 (decimal_value 0 s) _); [lia| |done].
  by apply decimal_value_ge.
Qed.

(** Up to 2^53 a string of digits converts to its value. *)
Lemma Number_safe (s : string) :
  all_digits s = true → decimal_value 0 s ≤ 2 ^ 53 →
  Number (Some s) = Num (decimal_value 0 s).
Proof.
  intros Hs Hv. unfold Number. rewrite Hs. apply double_safe.
  split; [by apply decimal_value_ge|done].
Qed.

(** [reduce] over the entries is [Math.max] over the captured numbers. *)
Lemma fold_reducer_captured (re : regexp) (entries : list string) (acc : number) :
  fold_left (reducer re) entries acc
  = fold_left Math_max (captured re entries) acc.
Proof.
  revert acc. induction entries as [|file entries IH]; intros acc; [done|].
  unfold captured in *. simpl. rewrite IH. unfold reducer.
  by destruct (exec re file).
Qed.

Lemma fold_Math_max_Num (zs : list Z) (a : Z) :
  fold_left Math_max (Num <$> zs) (Num a) = Num (fold_left Z.max zs a).
Proof. revert a. induction zs as [|z zs IH]; intros a; [done|]. apply IH. Qed.

Lemma fold_max_spec (zs : list Z) (a : Z) :
  a ≤ fold_left Z.max zs a
  ∧ (∀ z, z ∈ zs → z ≤ fold_left Z.max zs a)
  ∧ (fold_left Z.max zs a = a ∨ fold_left Z.max zs a ∈ zs).
Proof.
  revert a. induction zs as [|z zs IH]; intros a; simpl.
  - split; [lia|]. split; [|by left]. by intros z ?%elem_of_nil.
  - destruct (IH (Z.max a z)) as (H1 & H2 & H3). split; [lia|]. split.
    + intros y [->|Hy]%elem_of_cons; [lia|by apply H2].
    + destruct H3 as [H3|H3]; [|right; by apply elem_of_cons; right].
      destruct (Z.max_spec a z) as [[? E]|[? E]]; rewrite E in H3 |- *.
      * right. rewrite H3. by apply elem_of_cons; left.
      * by left.
Qed.

(** The maximum the scanner keeps: an upper bound of the captured numbers,
    one of them when there is one and 0 otherwise. *)
Lemma fold_reducer_max (re : regexp) (entries : list string) (S : list Z) :
  captured re entries = Num <$> S →
  ∃ m, fold_left (reducer re) entries (Num 0) = Num m
       ∧ 0 ≤ m
       ∧ (∀ n, n ∈ S → n ≤ m)
       ∧ (S = [] → m = 0)
       ∧ (S ≠ [] → m ∈ S).
Proof.
  intros HS. rewrite fold_reducer_captured, HS, fold_Math_max_Num.
  destruct (fold_max_spec S 0) as (H1 & H2 & H3).
  eexists. split; [done|]. split; [done|]. split; [done|]. split.
  - by intros ->.
  - intros HS'. destruct H3 as [H3|H3]; [|done].
    destruct S as [|z S]; [done|]. clear HS'.
    assert (0 ≤ z) as Hz.
    { assert (Num z ∈ captured re entries) as Hin
        by (rewrite HS; apply elem_of_cons; by left).
      unfold captured in Hin. apply list_elem_of_omap in Hin as (f & _ & Hf).
      destruct (exec re f) as [caps|]; [|done]. injection Hf as Hf.
      by apply Number_nonneg in Hf. }
    assert (z ≤ 0) by (rewrite <- H3; apply H2, elem_of_cons; by left).
    assert (z = 0) as -> by lia. rewrite H3. apply elem_of_cons; by left.
Qed.

Lemma fold_reducer_NaN (re : regexp) (entries : list string) :
  fold_left (reducer re) entries NaN = NaN.
Proof.
  induction entries as [|file entries IH]; [done|]. simpl.
  unfold reducer at 2. by destruct (exec re file).
Qed.

Lemma fold_reducer_Infinity (re : regexp) (entries : list string) (m : Z) :
  fold_left (reducer re) entries Infinity ≠ Num m.
Proof.
  induction entries as [|file entries IH]; [done|]. simpl.
  unfold reducer at 2. destruct (exec re file) as [caps|]; [|done].
  destruct (Number (capture1 caps)); simpl; [done|done|].
  by rewrite fold_reducer_NaN.
Qed.

(** Whatever the entries, the scanner's maximum is [NaN], [Infinity] or
    an integer that is not negative. *)
Lemma fold_reducer_nonneg (re : regexp) (entries : list string) (a m : Z) :
  0 ≤ a → fold_left (reducer re) entries (Num a) = Num m → 0 ≤ m.
Proof.
  revert a. induction entries as [|file entries IH]; intros a Ha; simpl.
  - by intros [= <-].
  - unfold reducer at 2. destruct (exec re file) as [caps|]; [|by apply IH].
    destruct (Number (capture1 caps)) as [z| |] eqn:Hz; simpl.
    + apply Number_nonneg in Hz. apply IH. lia.
    + intros E. by apply fold_reducer_Infinity in E.
    + by rewrite fold_reducer_NaN.
Qed.

End numbers.

(** ** The maximum over the entries *)

Section maximum.
Import JsString JsNumber JsRegExp Reference Effects VariableResolver.

Lemma Math_max_NaN_r (a : number) : Math_max a NaN = NaN.
Proof. by destruct a. Qed.

Lemma Math_max_assoc (a b c : number) :
  Math_max (Math_max a b) c = Math_max a (Math_max b c).
Proof. destruct a, b, c; simpl; try done. f_equal. lia. Qed.

Lemma Math_max_comm (a b : number) : Math_max a b = Math_max b a.
Proof. destruct a, b; simpl; try done. f_equal. lia. Qed.



Lemma reducer_Math_max (re : regexp) (x y : number) (file : string) :
  reducer re (Math_max x y) file = Math_max x (reducer re y file).
Proof.
  unfold reducer. destruct (exec re file); [|done]. apply Math_max_assoc.
Qed.

(** A maximum known beforehand can be brought in before or after the
    entries. *)
Lemma fold_reducer_Math_max (re : regexp) (entries : list string)
    (x y : number) :
  fold_left (reducer re) entries (Math_max x y)
  = Math_max x (fold_left (reducer re) entries y).
Proof.
  revert y. induction entries as [|file entries IH]; intros y; [done|].
  simpl. by rewrite reducer_Math_max, IH.
Qed.

Lemma fold_reducer_from (re : regexp) (entries : list string) (a : Z) :
  0 ≤ a →
  fold_left (reducer re) entries (Num a)
  = Math_max (Num a) (fold_left (reducer re) entries (Num 0)).
Proof.
  intros Ha. rewrite <- fold_reducer_Math_max. simpl.
  by rewrite Z.max_l.
Qed.

Lemma reducer_swap (re : regexp) (a : number) (f g : string) :
  reducer re (reducer re a f) g = reducer re (reducer re a g) f.
Proof.
  unfold reducer. destruct (exec re f), (exec re g); try done.
  by rewrite !Math_max_assoc, (Math_max_comm (Number _)).
Qed.

(** The order in which [readdir] reports the entries has no say. *)
Lemma fold_reducer_permutation (re : regexp) (entries entries' : list string)
    (acc : number) :
  entries ≡ₚ entries' →
  fold_left (reducer re) entries acc = fold_left (reducer re) entries' acc.
Proof.
  intros Hperm. revert acc.
  induction Hperm as [|f l l' _ IH|f g l|l1 l2 l3 _ IH1 _ IH2]; intros acc.
  - done.
  - apply IH.
  - simpl. by rewrite reducer_swap.
  - by rewrite IH1, IH2.
Qed.



(** The maximum over a directory is never negative. *)
Lemma fold_reducer_not_negative (re : regexp) (entries : list string) :
  lt_zero (fold_left (reducer re) entries (Num 0)) = false.
Proof.
  destruct (fold_left _ entries (Num 0)) as [m| |] eqn:Hfold; [|done..].
  apply fold_reducer_nonneg in Hfold; [|done]. simpl. lia.
Qed.


(** Entries that do not match leave the maximum as it is. *)
Lemma fold_reducer_no_match (re : regexp) (entries : list string)
    (acc : number) :
  (∀ file, file ∈ entries → exec re file = None) →
  fold_left (reducer re) entries acc = acc.
Proof.
  induction entries as [|file entries IH]; intros Hnone; [done|]. simpl.
  unfold reducer at 2. rewrite Hnone by (apply elem_of_cons; by left).
  apply IH. intros f Hf. apply Hnone, elem_of_cons. by right.
Qed.

Lemma pretty_N_char_nonzero (y : N) :
  (0 < y < 10)%N → is_nonzero_digit (pretty_N_char y) = true.
Proof.
  intros Hy.
  assert (y = 1 ∨ y = 2 ∨ y = 3 ∨ y = 4 ∨ y = 5 ∨ y = 6 ∨ y = 7 ∨ y = 8
          ∨ y = 9)%N as Hcases by lia.
  repeat (destruct Hcases as [->|Hcases]; [done|]). by subst y.
Qed.

(** The first digit [pretty_N_go] writes for a positive number is not a
    zero. *)
Lemma pretty_N_go_leading (x : N) (s : string) :
  (0 < x)%N →
  ∃ c rest, pretty_N_go x s = String c rest ∧ is_nonzero_digit c = true.
Proof.
  revert s. induction (N.lt_wf_0 x) as [x _ IH]; intros s Hx.
  rewrite pretty_N_go_step by done.
  destruct (decide (0 < x `div` 10)%N) as [Hdiv|Hdiv].
  - apply IH; [|done]. apply N.div_lt; lia.
  - assert (x `div` 10 = 0)%N as Hzero
      by (by apply N.le_0_r, N.nlt_ge).
    rewrite Hzero, pretty_N_go_0. eexists _, _. split; [done|].
    apply pretty_N_char_nonzero. split.
    + pose proof (N.div_mod x 10 ltac:(done)) as E. rewrite Hzero in E. lia.
    + apply N.mod_lt. lia.
Qed.

(** [String(V)] of an integer from 1 to 2^53 is a version as the capture
    group accepts it, and reads back as [V]. *)
Lemma to_String_version (V : Z) :
  1 ≤ V ≤ 2 ^ 53 →
  is_version (to_String (Num V)) = true
  ∧ Number (Some (to_String (Num V))) = Num V.
Proof.
  intros HV.
  destruct (to_String_decimal V) as (d & ds & Hs & Hd & Hds & Hback); [lia|].
  split; [|done]. rewrite Hs. simpl. rewrite Hds, andb_true_r.
  destruct V as [|p|p]; [lia| |lia].
  rewrite to_String_safe in Hs by lia.
  unfold pretty, pretty_Z, pretty, pretty_positive, pretty, pretty_N in Hs.
  rewrite decide_False in Hs by done.
  destruct (pretty_N_go_leading (N.pos p) EmptyString) as (c & rest & Hc & Hnz);
    [done|].
  rewrite Hc in Hs. by injection Hs as -> _.
Qed.

End maximum.

(** ** Running the effects *)

Section runs.
Import JsNumber Effects.
Context `{PathApi}.

Lemma run_bind {A B} (m : M A) (f : A → M B) (w : World) :
  (m ≫= f) w
  = match m w with
    | (Return a, w') => f a w'
    | (Throw e, w') => (Throw e, w')
    end.
Proof. reflexivity. Qed.

Lemma run_ret {A} (a : A) (w : World) : (mret a : M A) w = (Return a, w).
Proof. reflexivity. Qed.

Lemma run_throw {A} (e : exn) (w : World) : (throw e : M A) w = (Throw e, w).
Proof. reflexivity. Qed.

Lemma run_lift {A} (o : outcome A) (w : World) : lift o w = (o, w).
Proof. reflexivity. Qed.

Lemma run_emit (e : event) (w : World) :
  emit e w = (Return tt, mkWorld (files w) (log w ++ [e])).
Proof. reflexivity. Qed.

Lemma run_get_files (w : World) : get_files w = (Return (files w), w).
Proof. reflexivity. Qed.

Lemma run_put_files (fs : gmap string node) (w : World) :
  put_files fs w = (Return tt, mkWorld fs (log w)).
Proof. reflexivity. Qed.

Lemma run_existsSync (p : string) (w : World) :
  existsSync p w
  = (Return (bool_decide (is_Some (files w !! p))),
     mkWorld (files w) (log w ++ [ExistsSync p])).
Proof. reflexivity. Qed.

Lemma run_readdir (p : string) (w : World) :
  readdir p w
  = (Return match files w !! p with
            | Some (Dir entries true _) => inr entries
            | n => inl (scandir_error p n)
            end,
     mkWorld (files w) (log w ++ [Readdir p])).
Proof. reflexivity. Qed.

Lemma run_mkdirSync (p : string) (w : World) :
  mkdirSync p w
  = let w' := mkWorld (files w) (log w ++ [MkdirSync p]) in
    match files w !! p with
    | Some _ => (Throw (SystemError "EEXIST" "mkdir" p), w')
    | None =>
        match files w !! dirname p with
        | Some (Dir entries readable true) =>
            (Return tt,
             mkWorld
               (<[p := Dir [] true true]>
                  (<[dirname p := Dir (entries ++ [basename p]) readable true]>
                     (files w)))
               (log w ++ [MkdirSync p]))
        | Some (Dir _ _ false) => (Throw (SystemError "EACCES" "mkdir" p), w')
        | Some File => (Throw (SystemError "ENOTDIR" "mkdir" p), w')
        | None => (Throw (SystemError "ENOENT" "mkdir" p), w')
        end
    end.
Proof.
  unfold mkdirSync. rewrite run_bind, run_emit. cbv iota.
  rewrite run_bind, run_get_files. cbv iota zeta. cbn [files log].
  destruct (files w !! p); [done|].
  destruct (files w !! dirname p) as [[|entries readable []]|]; done.
Qed.

End runs.

(** ** Runs of the version scanner *)

Section scanner_runs.
Import JsString JsNumber JsRegExp Reference Effects VariableResolver.
Context `{PathApi}.

(** The expression of the scanner is always built. *)
Lemma patternRegex_built (pattern : string) :
  RegExp (patternRegex_source pattern)
  = Some (marker_to_group (basename pattern)).
Proof. apply RegExp_marker_to_group. Qed.

Lemma getVersionNumber_no_marker (pattern : string) (resource : Uri) (w : World) :
  includes VERSION_MARKER pattern = false →
  getVersionNumber pattern resource w = (Return (Num (-1)), w).
Proof. intros Hm. unfold getVersionNumber. by rewrite Hm. Qed.

(** The directory exists and can be read. *)
Lemma getVersionNumber_listed (pattern : string) (resource : Uri) (w : World)
    (entries : list string) (writable : bool) :
  includes VERSION_MARKER pattern = true →
  files w !! fileDir_of pattern resource = Some (Dir entries true writable) →
  getVersionNumber pattern resource w
  = let fileDir := fileDir_of pattern resource in
    let lastVersion :=
      fold_left (reducer (marker_to_group (basename pattern))) entries (Num 0) in
    (Return (if lt_zero lastVersion then lastVersion else succ lastVersion),
     mkWorld (files w)
       (log w ++ [ExistsSync fileDir; Readdir fileDir;
                  ConsoleLog ("Version num: " +:+ to_String lastVersion)])).
Proof.
  intros Hm Hdir. unfold getVersionNumber, await_readdir, console_log.
  rewrite Hm, patternRegex_built. cbn [negb].
  run. rewrite Hdir, bool_decide_eq_true_2 by eauto. cbn [negb].
  run. rewrite Hdir. run. rewrite <- !app_assoc. simpl app.
  by destruct (lt_zero _).
Qed.

(** The directory exists and cannot be read: the promise is rejected with
    -2 and [await] throws it. *)
Lemma getVersionNumber_unlistable (pattern : string) (resource : Uri)
    (w : World) (n : node) :
  includes VERSION_MARKER pattern = true →
  files w !! fileDir_of pattern resource = Some n →
  (∀ entries writable, n ≠ Dir entries true writable) →
  getVersionNumber pattern resource w
  = let fileDir := fileDir_of pattern resource in
    (Throw (Thrown (Num (-2))),
     mkWorld (files w)
       (log w ++ [ExistsSync fileDir; Readdir fileDir;
                  ConsoleError (scandir_error fileDir (Some n));
                  Uncaught
                    (TypeError
                       "Cannot read properties of undefined (reading 'reduce')")])).
Proof.
  intros Hm Hdir Hn. unfold getVersionNumber, await_readdir, console_error.
  rewrite Hm, patternRegex_built. cbn [negb].
  run. rewrite Hdir, bool_decide_eq_true_2 by eauto. cbn [negb].
  run. rewrite Hdir.
  destruct n as [|entries [] writable]; [|by destruct (Hn entries writable)|];
    run; by rewrite <- !app_assoc.
Qed.

(** The directory is missing and its parent is a directory one may write
    to: the directory is made, listed, and found empty. *)
Lemma getVersionNumber_created (pattern : string) (resource : Uri) (w : World)
    (entries : list string) (readable : bool) :
  includes VERSION_MARKER pattern = true →
  files w !! fileDir_of pattern resource = None →
  files w !! dirname (fileDir_of pattern resource)
  = Some (Dir entries readable true) →
  getVersionNumber pattern resource w
  = let fileDir := fileDir_of pattern resource in
    (Return (Num 1),
     mkWorld
       (<[fileDir := Dir [] true true]>
          (<[dirname fileDir := Dir (entries ++ [basename fileDir]) readable true]>
             (files w)))
       (log w ++ [ExistsSync fileDir; MkdirSync fileDir; Readdir fileDir;
                  ConsoleLog "Version num: 0"])).
Proof.
  intros Hm Hdir Hparent.
  unfold getVersionNumber, await_readdir, console_log.
  rewrite Hm, patternRegex_built. cbn [negb].
  run. rewrite Hdir, bool_decide_eq_false_2 by (by intros [??]). cbn [negb].
  rewrite run_mkdirSync. cbv zeta. cbn [files log]. rewrite Hdir, Hparent.
  run. rewrite lookup_insert_eq. run. by rewrite <- !app_assoc.
Qed.

(** The directory is missing and cannot be made: [mkdirSync] throws and
    nothing is made, the missing parents neither. *)
Lemma getVersionNumber_not_created (pattern : string) (resource : Uri)
    (w : World) :
  includes VERSION_MARKER pattern = true →
  files w !! fileDir_of pattern resource = None →
  (∀ entries readable,
     files w !! dirname (fileDir_of pattern resource)
     ≠ Some (Dir entries readable true)) →
  ∃ code,
    getVersionNumber pattern resource w
    = let fileDir := fileDir_of pattern resource in
      (Throw (SystemError code "mkdir" fileDir),
       mkWorld (files w) (log w ++ [ExistsSync fileDir; MkdirSync fileDir])).
Proof.
  intros Hm Hdir Hparent.
  unfold getVersionNumber, await_readdir, console_log.
  rewrite Hm, patternRegex_built. cbn [negb].
  run. rewrite Hdir, bool_decide_eq_false_2 by (by intros [??]). cbn [negb].
  rewrite run_mkdirSync. cbv zeta. cbn [files log]. rewrite Hdir.
  destruct (files w !! dirname (fileDir_of pattern resource))
    as [[|entries readable []]|] eqn:E;
    [|by destruct (Hparent entries readable)|..];
    eexists; run; by rewrite <- !app_assoc.
Qed.

End scanner_runs.

(** ** Runs of the resolver *)

Section resolver_runs.
Import JsString JsNumber JsRegExp Reference Effects VariableResolver.
Context `{PathApi}.
Variable getWorkspaceFolder : Uri → option WorkspaceFolder.

(** [resolveString] after its intermediate string and the answer of the
    scanner. *)
Lemma resolveString_run (pattern : option string) (resource : Uri)
    (exportExt : option string) (w w' : World) (replaced : string)
    (version : number) :
  intermediate getWorkspaceFolder pattern resource exportExt = Return replaced →
  getVersionNumber replaced resource w = (Return version, w') →
  resolveString getWorkspaceFolder pattern resource exportExt w
  = let logged :=
      log w' ++ [ConsoleLog ("Version number: " +:+ to_String version)] in
    if bool_decide (version = Num (-1)) then
      (Return replaced, mkWorld (files w') logged)
    else if bool_decide (version = Num (-2)) then
      (Return replaced,
       mkWorld (files w')
         (logged ++ [ShowErrorMessage
                       "Could not read files in directory specified for export"]))
    else
      (Return (replace_all VERSION_MARKER (to_String version) replaced),
       mkWorld (files w') logged).
Proof.
  unfold intermediate, resolveString, console_log, showErrorMessage.
  intros -> Hv. run. rewrite Hv. run.
  repeat case_bool_decide; run; done.
Qed.

(** An exception of the scanner leaves [resolveString] as it is. *)
Lemma resolveString_scanner_throws (pattern : option string) (resource : Uri)
    (exportExt : option string) (w w' : World) (replaced : string) (e : exn) :
  intermediate getWorkspaceFolder pattern resource exportExt = Return replaced →
  getVersionNumber replaced resource w = (Throw e, w') →
  resolveString getWorkspaceFolder pattern resource exportExt w = (Throw e, w').
Proof.
  unfold intermediate, resolveString. intros -> Hv. run. by rewrite Hv.
Qed.

(** An exception of the evaluator leaves [resolveString] at once. *)
Lemma resolveString_evaluator_throws (pattern : option string) (resource : Uri)
    (exportExt : option string) (w : World) (e : exn) :
  intermediate getWorkspaceFolder pattern resource exportExt = Throw e →
  resolveString getWorkspaceFolder pattern resource exportExt w = (Throw e, w).
Proof. unfold intermediate, resolveString. intros ->. by run. Qed.

End resolver_runs.

(** * The claims *)

(** ** The placeholder evaluator *)

Section evaluator.
Import JsString JsNumber Reference Effects VariableResolver.
Context `{PathApi}.
Variable getWorkspaceFolder : Uri → option WorkspaceFolder.

Abbreviation evaluate := (evaluateSingleVariable getWorkspaceFolder).

Lemma replace_variables_from_cons (callback : string → string → outcome string)
    (skip : nat) (c : ascii) (s : string) :
  replace_variables_from callback skip (String c s)
  = match skip with
    | S k => replace_variables_from callback k s
    | O =>
        match VARIABLE_REGEXP_match (String c s) with
        | Some variable =>
            outcome_bind
              (λ value,
                 outcome_map (String.append value)
                   (replace_variables_from callback
                      (2 + String.length variable) s))
              (callback ("${" +:+ variable +:+ "}") variable)
        | None => outcome_map (String c) (replace_variables_from callback O s)
        end
    end.
Proof. reflexivity. Qed.

Lemma replace_variables_from_skip_all
    (callback : string → string → outcome string) (k : nat) (s : string) :
  (String.length s ≤ k)%nat →
  replace_variables_from callback k s = Return EmptyString.
Proof.
  revert k. induction s as [|c s IH]; intros k Hk; [done|].
  simpl in Hk. destruct k as [|k]; [lia|]. apply IH. lia.
Qed.

(** With a project root, a name without a case of its own is echoed;
    [exportExtension] without a truthy extension and [#] are echoed too. *)
Lemma evaluateSingleVariable_default (match_ variable : string) (resource : Uri)
    (exportExt : option string) (folder : WorkspaceFolder) :
  getWorkspaceFolder resource = Some folder →
  (variable ∉ supported) ∨ variable = "#" →
  evaluate match_ variable resource exportExt = Return match_.
Proof.
  intros Hws Hv. unfold evaluateSingleVariable. rewrite Hws.
  assert (∀ x, x ∈ supported → x ≠ "#" → variable ≠ x) as Hne.
  { intros x Hx Hx' ->. by destruct Hv as [Hv| ->]. }
  repeat (rewrite bool_decide_eq_false_2;
          [|apply Hne; [apply list_elem_of_In; simpl; tauto|done]]).
  done.
Qed.

(** X1.  With a project root, echoing is idempotent: the evaluator echoes the
    echoed text again, and so does the scan of that text for
    placeholders, the captured names never holding a closing brace or a line
    terminator. *)
Theorem evaluateSingleVariable_echo_idempotent (name : string) (resource : Uri)
    (exportExt : option string) (folder : WorkspaceFolder) :
  getWorkspaceFolder resource = Some folder →
  name ∉ supported →
  let text := "${" +:+ name +:+ "}" in
  evaluate text name resource exportExt = Return text
  ∧ (∀ echoed, evaluate text name resource exportExt = Return echoed →
       evaluate echoed name resource exportExt = Return echoed)
  ∧ (lazy_until_brace (name +:+ "}") = Some name →
     replace_variables (λ m v, evaluate m v resource exportExt) text
     = Return text).
Proof.
  intros Hws Hname text.
  assert (∀ m, evaluate m name resource exportExt = Return m) as Hecho.
  { intros m. eapply evaluateSingleVariable_default; eauto. }
  split; [apply Hecho|]. split; [intros echoed _; apply Hecho|].
  intros Hlazy. unfold replace_variables, text.
  rewrite !append_cons, append_empty_l, replace_variables_from_cons.
  unfold VARIABLE_REGEXP_match.
  change (startsWith "${" (String "$" (String "{" ?s))) with true.
  cbv iota.
  change (slice_from 2 (String "$" (String "{" ?s))) with s.
  rewrite Hlazy, !append_cons, append_empty_l, Hecho. cbn [outcome_bind].
  rewrite replace_variables_from_skip_all
    by (simpl; rewrite length_append; simpl; lia).
  unfold outcome_map. cbn [outcome_bind]. by rewrite append_empty_r.
Qed.

(** With a project root, the names with a case of their own evaluate to
    the parts of the file location the table of the evaluator names. *)
Theorem evaluateSingleVariable_table (match_ : string) (resource : Uri)
    (exportExt : option string) (folder : WorkspaceFolder) :
  getWorkspaceFolder resource = Some folder →
  let root := fsPath (uri folder) in
  let file := fsPath resource in
  evaluate match_ "workspaceFolder" resource exportExt
  = Return (or_else root match_)
  ∧ evaluate match_ "workspaceFolderBasename" resource exportExt
    = Return (or_else (basename root) match_)
  ∧ evaluate match_ "file" resource exportExt = Return file
  ∧ evaluate match_ "relativeFile" resource exportExt
    = Return (relative root file)
  ∧ evaluate match_ "relativeFileDirname" resource exportExt
    = Return (basename (dirname file))
  ∧ evaluate match_ "fileBasename" resource exportExt
    = Return (basename file)
  ∧ evaluate match_ "fileBasenameNoExtension" resource exportExt
    = Return (basename_ext file (extname file))
  ∧ evaluate match_ "fileDirname" resource exportExt
    = Return (dirname file)
  ∧ evaluate match_ "fileExtname" resource exportExt
    = Return (extname file)
  ∧ evaluate match_ "#" resource exportExt = Return match_.
Proof.
  intros Hws. unfold evaluateSingleVariable. rewrite Hws. by repeat split.
Qed.

(** C2.  Where the project root of the file cannot be determined,
    [evaluateSingleVariable] does not fall back on the placeholder text:
    reading [uri] of the undefined workspace folder throws a TypeError
    before the name is looked at, so the call throws for [workspaceFolder],
    [workspaceFolderBasename] and [relativeFile] as for every other name. *)
Theorem evaluateSingleVariable_throws_without_workspace
    (match_ variable : string) (resource : Uri) (exportExt : option string) :
  getWorkspaceFolder resource = None →
  evaluate match_ variable resource exportExt
  = Throw (TypeError "Cannot read properties of undefined (reading 'uri')")
  ∧ evaluate match_ variable resource exportExt ≠ Return match_.
Proof.
  intros Hws. unfold evaluateSingleVariable. by rewrite Hws.
Qed.

(** C3, as the code has it.  With a project root, [exportExtension]
    evaluates to the extension of the caller when it is not empty, to the
    default value [scad] of the parameter when the caller gives none, and to
    the placeholder text when the caller gives the empty string. *)
Theorem evaluateSingleVariable_exportExtension (match_ : string)
    (resource : Uri) (folder : WorkspaceFolder) :
  getWorkspaceFolder resource = Some folder →
  (∀ ext, ext ≠ EmptyString →
     evaluate match_ "exportExtension" resource (Some ext) = Return ext)
  ∧ evaluate match_ "exportExtension" resource None = Return "scad"
  ∧ evaluate match_ "exportExtension" resource (Some EmptyString)
    = Return match_.
Proof.
  intros Hws. unfold evaluateSingleVariable. rewrite Hws. simpl.
  split; [|done]. intros ext Hext. by rewrite bool_decide_eq_false_2.
Qed.

(** C6.  For a name without a case of its own and a file whose project
    root cannot be determined, [evaluateSingleVariable] does not return the
    placeholder text: it throws the TypeError of C2. *)
Theorem unknown_variable_throws_without_workspace (name : string)
    (resource : Uri) (exportExt : option string) :
  name ∉ supported →
  getWorkspaceFolder resource = None →
  evaluate ("${" +:+ name +:+ "}") name resource exportExt
  = Throw (TypeError "Cannot read properties of undefined (reading 'uri')").
Proof.
  intros _ Hws. unfold evaluateSingleVariable. by rewrite Hws.
Qed.

End evaluator.

(** C2 at [workspaceFolder] for a file outside every workspace folder. *)
Lemma evaluateSingleVariable_throws_without_workspace_witness :
  Scenario.project Scenario.stray = None
  ∧ VariableResolver.evaluateSingleVariable (H := Scenario.api)
      Scenario.project "${workspaceFolder}" "workspaceFolder" Scenario.stray
      None
    ≠ Effects.Return "${workspaceFolder}".
Proof.
  split; [reflexivity|].
  apply (evaluateSingleVariable_throws_without_workspace (H := Scenario.api)
           Scenario.project "${workspaceFolder}" "workspaceFolder"
           Scenario.stray None).
  reflexivity.
Defined.

(** C3 as stated fails: without an extension of the caller the evaluator
    answers [scad], not the placeholder text. *)
Lemma exportExtension_default_is_scad :
  VariableResolver.evaluateSingleVariable (H := Scenario.api)
    Scenario.project "${exportExtension}" "exportExtension" Scenario.part None
  = Effects.Return "scad"
  ∧ VariableResolver.evaluateSingleVariable (H := Scenario.api)
      Scenario.project "${exportExtension}" "exportExtension" Scenario.part
      None
    ≠ Effects.Return "${exportExtension}".
Proof. split; [reflexivity|discriminate]. Qed.

Lemma evaluateSingleVariable_exportExtension_witness :
  Scenario.project Scenario.part
  = Some {| uri := {| fsPath := "/proj" |} |}
  ∧ VariableResolver.evaluateSingleVariable (H := Scenario.api)
      Scenario.project "${exportExtension}" "exportExtension" Scenario.part
      (Some "stl")
    = Effects.Return "stl".
Proof.
  split; [reflexivity|].
  apply (evaluateSingleVariable_exportExtension (H := Scenario.api)
           Scenario.project "${exportExtension}" Scenario.part _ eq_refl).
  discriminate.
Defined.

(** C6 at the name [noMatch] for a file outside every workspace folder. *)
Lemma unknown_variable_throws_without_workspace_witness :
  ("noMatch" ∉ Reference.supported)
  ∧ Scenario.project Scenario.stray = None
  ∧ VariableResolver.evaluateSingleVariable (H := Scenario.api)
      Scenario.project "${noMatch}" "noMatch" Scenario.stray None
    = Effects.Throw
        (Effects.TypeError
           "Cannot read properties of undefined (reading 'uri')").
Proof.
  assert ("noMatch" ∉ Reference.supported) as Hname
    by (intros Hin%list_elem_of_In; simpl in Hin; intuition discriminate).
  split; [exact Hname|]. split; [reflexivity|].
  apply (unknown_variable_throws_without_workspace (H := Scenario.api)
           Scenario.project "noMatch" Scenario.stray None Hname).
  reflexivity.
Defined.

(** ** The version scanner *)

Section scanner.
Import JsString JsNumber JsRegExp Reference Effects VariableResolver.
Context `{PathApi}.

Lemma captured_cons (re : regexp) (file : string) (entries : list string) :
  captured re (file :: entries)
  = match exec re file with
    | Some matched => Number (capture1 matched) :: captured re entries
    | None => captured re entries
    end.
Proof. unfold captured. simpl. by destruct (exec re file). Qed.

(** With a marker in the basename every entry that matches gives the
    number of a version. *)
Lemma captured_group_versions (b before after : string)
    (entries : list string) (c : number) :
  split_at_marker b = Some (before, after) →
  c ∈ captured (marker_to_group b) entries →
  ∃ v, is_version v = true ∧ c = Number (Some v).
Proof.
  intros Hb. unfold captured. intros (file & _ & Hc)%list_elem_of_omap.
  destruct (exec (marker_to_group b) file) as [caps|] eqn:E; [|done].
  destruct (exec_group_sound _ _ _ _ _ Hb E) as (v & _ & _ & -> & Hv & _).
  injection Hc as <-. by exists v.
Qed.

(** Such a number is at least 1, or [Infinity]. *)
Lemma captured_group_numbers (b before after : string)
    (entries : list string) (c : number) :
  split_at_marker b = Some (before, after) →
  c ∈ captured (marker_to_group b) entries →
  (∃ n, c = Num n ∧ 1 ≤ n) ∨ c = Infinity.
Proof.
  intros Hb Hc.
  destruct (captured_group_versions _ _ _ _ _ Hb Hc) as (v & Hv & ->).
  by apply Number_version.
Qed.

(** The answer for a directory that is listed: the maximum over the
    entries, plus one. *)
Lemma getVersionNumber_listed_answer (pattern : string) (resource : Uri)
    (w : World) (entries : list string) (writable : bool) :
  includes VERSION_MARKER pattern = true →
  files w !! fileDir_of pattern resource = Some (Dir entries true writable) →
  (getVersionNumber pattern resource w).1
  = Return
      (succ (fold_left (reducer (marker_to_group (basename pattern))) entries
               (Num 0))).
Proof.
  intros Hm Hdir.
  rewrite (getVersionNumber_listed _ _ _ entries writable) by done.
  cbv zeta. cbn [fst]. by rewrite fold_reducer_not_negative.
Qed.

(** What the scanner can answer for a pattern that holds the marker: an
    exception, [NaN], [Infinity], or an integer that is at least 1. *)
Lemma getVersionNumber_outcome (pattern : string) (resource : Uri) (w : World) :
  includes VERSION_MARKER pattern = true →
  (∃ e, (getVersionNumber pattern resource w).1 = Throw e)
  ∨ (getVersionNumber pattern resource w).1 = Return NaN
  ∨ (getVersionNumber pattern resource w).1 = Return Infinity
  ∨ (∃ V, 1 ≤ V ∧ (getVersionNumber pattern resource w).1 = Return (Num V)).
Proof.
  intros Hm.
  destruct (files w !! fileDir_of pattern resource)
    as [[|entries [] writable]|] eqn:Hdir.
  - rewrite (getVersionNumber_unlistable _ _ _ File) by done. left. by eexists.
  - rewrite (getVersionNumber_listed_answer _ _ _ entries writable) by done.
    destruct (fold_left _ entries (Num 0)) as [m| |] eqn:Hfold;
      [|by right; right; left|by right; left].
    apply fold_reducer_nonneg in Hfold; [|done].
    destruct (succ (Num m)) as [V| |] eqn:HV.
    + right. right. right. exists V. split; [|done].
      by apply (succ_positive m).
    + by right; right; left.
    + by right; left.
  - rewrite (getVersionNumber_unlistable _ _ _ (Dir entries false writable))
      by done.
    left. by eexists.
  - destruct (files w !! dirname (fileDir_of pattern resource))
      as [[|es readable []]|] eqn:Hparent.
    2: { rewrite (getVersionNumber_created _ _ _ es readable) by done.
         right. right. right. by exists 1. }
    all: destruct (getVersionNumber_not_created pattern resource w)
           as [code ->]; [done|done|congruence|].
    all: left; by eexists.
Qed.

(** The scanner never answers -2 and never calls the notifier. *)
Lemma getVersionNumber_never_minus_two (pattern : string) (resource : Uri)
    (w : World) :
  (getVersionNumber pattern resource w).1 ≠ Return (Num (-2))
  ∧ List.filter is_notification (log (getVersionNumber pattern resource w).2)
    = List.filter is_notification (log w).
Proof.
  destruct (includes VERSION_MARKER pattern) eqn:Hm;
    [|by rewrite getVersionNumber_no_marker].
  split.
  - destruct (getVersionNumber_outcome pattern resource w Hm)
      as [[e He]|[He|[He|(V & HV & He)]]]; rewrite He; [done..|].
    intros [=]. lia.
  - destruct (files w !! fileDir_of pattern resource)
      as [[|entries [] writable]|] eqn:Hdir.
    + rewrite (getVersionNumber_unlistable _ _ _ File) by done.
      cbv zeta. cbn [snd log]. rewrite List.filter_app. simpl.
      by rewrite app_nil_r.
    + rewrite (getVersionNumber_listed _ _ _ entries writable) by done.
      cbv zeta. cbn [snd log]. rewrite List.filter_app. simpl.
      by rewrite app_nil_r.
    + rewrite (getVersionNumber_unlistable _ _ _ (Dir entries false writable))
        by done.
      cbv zeta. cbn [snd log]. rewrite List.filter_app. simpl.
      by rewrite app_nil_r.
    + destruct (files w !! dirname (fileDir_of pattern resource))
        as [[|es readable []]|] eqn:Hparent.
      2: { rewrite (getVersionNumber_created _ _ _ es readable) by done.
           cbv zeta. cbn [snd log]. rewrite List.filter_app. simpl.
           by rewrite app_nil_r. }
      all: destruct (getVersionNumber_not_created pattern resource w)
             as [code ->]; [done|done|congruence|].
      all: cbv zeta; cbn [snd log]; rewrite List.filter_app; simpl.
      all: by rewrite app_nil_r.
Qed.

(** X2.  Whenever the scanner answers with an integer for a pattern that
    holds the marker, the integer is at least 1. *)
Theorem getVersionNumber_resolved_positive (pattern : string) (resource : Uri)
    (w w' : World) (V : Z) :
  includes VERSION_MARKER pattern = true →
  getVersionNumber pattern resource w = (Return (Num V), w') →
  1 ≤ V.
Proof.
  intros Hm Hrun.
  destruct (getVersionNumber_outcome pattern resource w Hm)
    as [[e He]|[He|[He|(V' & HV & He)]]];
    rewrite Hrun in He; simplify_eq/=; lia.
Qed.

(** C4, as the code has it.  Where the destination directory is listed
    and the captured numbers of the entries that match the expression of
    the scanner are the numbers of [S], all of them below 2^53, the
    scanner answers the maximum of [S] plus one, gaps in [S] having no
    say: 6 for the numbers 1, 2 and 5, and 1 when no entry matches (the
    maximum then is the initial 0).  When the basename of the pattern
    holds the marker, every captured number is an integer that is at
    least 1, or [Infinity].  For a directory the scanner has just made the
    answer is 1 as well. *)
Theorem getVersionNumber_next_version (pattern : string) (resource : Uri)
    (w : World) (re : regexp) :
  includes VERSION_MARKER pattern = true →
  RegExp (patternRegex_source pattern) = Some re →
  (∀ entries writable S,
     files w !! fileDir_of pattern resource = Some (Dir entries true writable) →
     captured re entries = Num <$> S →
     (∀ n, n ∈ S → n < 2 ^ 53) →
     ∃ m, (getVersionNumber pattern resource w).1 = Return (Num (m + 1))
          ∧ (∀ n, n ∈ S → n ≤ m)
          ∧ (S ≠ [] → m ∈ S)
          ∧ (S = [] → m = 0)
          ∧ ((∀ n, n ∈ S ↔ n ∈ [1; 2; 5]) → m + 1 = 6))
  ∧ (∀ entries c,
       includes VERSION_MARKER (basename pattern) = true →
       c ∈ captured re entries →
       (∃ n, c = Num n ∧ 1 ≤ n) ∨ c = Infinity)
  ∧ (∀ entries readable,
       files w !! fileDir_of pattern resource = None →
       files w !! dirname (fileDir_of pattern resource)
       = Some (Dir entries readable true) →
       (getVersionNumber pattern resource w).1 = Return (Num 1)).
Proof.
  intros Hm Hre. rewrite patternRegex_built in Hre. injection Hre as <-.
  split; [|split].
  - intros entries writable S Hdir HS Hsafe.
    rewrite (getVersionNumber_listed_answer _ _ _ entries writable) by done.
    destruct (fold_reducer_max _ _ _ HS) as (m & -> & Hm0 & Hub & Hnil & Hin).
    assert (m < 2 ^ 53) as Hm53.
    { destruct S as [|z S]; [by rewrite Hnil|]. by apply Hsafe, Hin. }
    exists m. rewrite succ_safe by lia.
    split; [done|]. split; [done|]. split; [done|]. split; [done|].
    intros H125.
    assert (m ∈ S) as Hmem.
    { apply Hin. intros ->. by apply (elem_of_nil 1), H125, elem_of_cons; left. }
    assert (5 ≤ m) by (apply Hub, H125, list_elem_of_In; simpl; tauto).
    apply H125, list_elem_of_In in Hmem. simpl in Hmem. lia.
  - intros entries c Hb Hc.
    destruct (split_at_marker (basename pattern)) as [[before after]|] eqn:E.
    + by eapply captured_group_numbers.
    + apply split_at_marker_None in E. unfold VERSION_MARKER in Hb. congruence.
  - intros entries readable Hdir Hparent.
    by rewrite (getVersionNumber_created _ _ _ entries readable).
Qed.

(** C7, as the code has it.  The expression of the scanner is the
    basename taken literally with its first marker replaced by the capture
    group.  What the group captures is a digit from 1 to 9 followed by
    digits, so the captured value is at least 1 ([Infinity] when the
    digits are too many for a double) and never written with a leading
    zero, and an entry does not match at the place where the text before
    the marker is followed by a zero.  The expression is not
    anchored: such an entry may still match further to the right. *)
Theorem patternRegex_version_group (pattern : string) :
  RegExp (replace_first "\$\{#\}" "([1-9][0-9]*)"
            (EscapeStringRegexp.escapeStringRegexp (basename pattern)))
  = Some (marker_to_group (basename pattern))
  ∧ (∀ file matched cap,
       exec (marker_to_group (basename pattern)) file = Some matched →
       capture1 matched = Some cap →
       is_version cap = true
       ∧ ((∃ n, Number (Some cap) = Num n ∧ 1 ≤ n)
          ∨ Number (Some cap) = Infinity))
  ∧ (∀ before after rest,
       split_at_marker (basename pattern) = Some (before, after) →
       match_here (marker_to_group (basename pattern))
         (before +:+ String "0" rest) = None).
Proof.
  split; [apply RegExp_marker_to_group|]. split.
  - intros file matched cap Hexec Hcap.
    destruct (split_at_marker (basename pattern)) as [[before after]|] eqn:Hb.
    + destruct (exec_group_sound _ _ _ _ _ Hb Hexec)
        as (v & _ & _ & -> & Hv & _).
      injection Hcap as <-. split; [done|]. by apply Number_version.
    + by rewrite (exec_literal_captures _ _ _ Hb Hexec) in Hcap.
  - intros before after rest Hb. by eapply match_here_leading_zero.
Qed.

(** C8.  The scanner works on the directory [fileDir]: the directory part
    of the pattern when the pattern is absolute, the directory part of the
    pattern joined to the directory of the file otherwise.  A directory
    that exists is checked and listed.  A missing one is first made by a
    single [mkdirSync] without [recursive], as an empty entry of its
    parent, and then listed; where the parent is no directory one may
    write to, that call throws and nothing is made. *)
Theorem getVersionNumber_destination (pattern : string) (resource : Uri)
    (w : World) :
  includes VERSION_MARKER pattern = true →
  let fileDir :=
    if isAbsolute pattern then dirname pattern
    else dirname (join (dirname (fsPath resource)) pattern) in
  let run := getVersionNumber pattern resource w in
  (is_Some (files w !! fileDir) →
     files run.2 = files w
     ∧ List.filter is_fs_event (log run.2)
       = List.filter is_fs_event (log w)
         ++ [ExistsSync fileDir; Readdir fileDir])
  ∧ (∀ entries readable,
       files w !! fileDir = None →
       files w !! dirname fileDir = Some (Dir entries readable true) →
       files run.2
       = <[fileDir := Dir [] true true]>
           (<[dirname fileDir := Dir (entries ++ [basename fileDir]) readable true]>
              (files w))
       ∧ List.filter is_fs_event (log run.2)
         = List.filter is_fs_event (log w)
           ++ [ExistsSync fileDir; MkdirSync fileDir; Readdir fileDir])
  ∧ (files w !! fileDir = None →
     (∀ entries readable,
        files w !! dirname fileDir ≠ Some (Dir entries readable true)) →
     files run.2 = files w
     ∧ (∃ code, run.1 = Throw (SystemError code "mkdir" fileDir))
     ∧ List.filter is_fs_event (log run.2)
       = List.filter is_fs_event (log w)
         ++ [ExistsSync fileDir; MkdirSync fileDir]).
Proof.
  intros Hm fileDir run. subst run.
  change fileDir with (fileDir_of pattern resource) in *. clear fileDir.
  split; [|split].
  - intros [[|entries [] writable] Hdir].
    + rewrite (getVersionNumber_unlistable _ _ _ File) by done.
      cbv zeta. cbn [snd files log]. by rewrite List.filter_app.
    + rewrite (getVersionNumber_listed _ _ _ entries writable) by done.
      cbv zeta. cbn [snd files log]. by rewrite List.filter_app.
    + rewrite (getVersionNumber_unlistable _ _ _ (Dir entries false writable))
        by done.
      cbv zeta. cbn [snd files log]. by rewrite List.filter_app.
  - intros entries readable Hdir Hparent.
    rewrite (getVersionNumber_created _ _ _ entries readable) by done.
    cbv zeta. cbn [snd files log]. by rewrite List.filter_app.
  - intros Hdir Hparent.
    destruct (getVersionNumber_not_created pattern resource w)
      as [code ->]; [done..|].
    cbv zeta. cbn [fst snd files log]. rewrite List.filter_app.
    split; [done|]. split; [by exists code|done].
Qed.


End scanner.

(** ** The pattern resolver *)

Section resolver.
Import JsString JsNumber JsRegExp Reference Effects VariableResolver.
Context `{PathApi}.
Variable getWorkspaceFolder : Uri → option WorkspaceFolder.

(** C1.  Where the destination directory exists and cannot be listed, the
    promise of the scanner is rejected with -2 instead of resolved with it:
    the rejection leaves [resolveString] as an exception, its case for -2 is
    never reached, and the notifier is not called. *)
Theorem resolveString_listing_failure (pattern : option string)
    (resource : Uri) (exportExt : option string) (w : World)
    (replaced : string) (n : node) :
  intermediate getWorkspaceFolder pattern resource exportExt = Return replaced →
  includes VERSION_MARKER replaced = true →
  files w !! fileDir_of replaced resource = Some n →
  (∀ entries writable, n ≠ Dir entries true writable) →
  let run := resolveString getWorkspaceFolder pattern resource exportExt w in
  run.1 = Throw (Thrown (Num (-2)))
  ∧ run.1 ≠ Return replaced
  ∧ List.filter is_notification (log run.2)
    = List.filter is_notification (log w).
Proof.
  intros Hreplaced Hm Hdir Hn run. subst run.
  erewrite resolveString_scanner_throws;
    [|done|by apply (getVersionNumber_unlistable _ _ _ n)].
  cbn [fst snd log]. split; [done|]. split; [done|].
  rewrite List.filter_app. simpl. by rewrite app_nil_r.
Qed.

(** C5.  Where the intermediate string holds no version marker, the
    scanner answers -1 without touching the world, and [resolveString]
    returns the intermediate string: the file system is as before and the
    run adds one line to the console and no file system operation. *)
Theorem resolveString_without_marker (pattern : option string)
    (resource : Uri) (exportExt : option string) (w : World)
    (replaced : string) :
  intermediate getWorkspaceFolder pattern resource exportExt = Return replaced →
  includes VERSION_MARKER replaced = false →
  let run := resolveString getWorkspaceFolder pattern resource exportExt w in
  getVersionNumber replaced resource w = (Return (Num (-1)), w)
  ∧ run = (Return replaced,
           mkWorld (files w) (log w ++ [ConsoleLog "Version number: -1"]))
  ∧ List.filter is_fs_event (log run.2) = List.filter is_fs_event (log w).
Proof.
  intros Hreplaced Hm run. subst run.
  pose proof (getVersionNumber_no_marker replaced resource w Hm) as Hv.
  rewrite (resolveString_run _ _ _ _ _ _ _ _ Hreplaced Hv).
  cbv zeta. rewrite bool_decide_eq_true_2 by done.
  split; [done|]. split; [done|].
  cbn [snd log]. rewrite List.filter_app. simpl. by rewrite app_nil_r.
Qed.

(** C9, as the code has it.  Where the scanner answers the integer [V] for
    an intermediate string that holds the marker, [resolveString] returns
    the intermediate string with every marker replaced by [String(V)]:
    around any marker of the intermediate string the text before and the
    text after have their markers replaced as well.  For [V] up to 2^53
    [String(V)] is the decimal representation of [V]: its digits read back
    as [V], and no marker is left. *)
Theorem resolveString_substitutes_version (pattern : option string)
    (resource : Uri) (exportExt : option string) (w w' : World)
    (replaced : string) (V : Z) :
  intermediate getWorkspaceFolder pattern resource exportExt = Return replaced →
  includes VERSION_MARKER replaced = true →
  getVersionNumber replaced resource w = (Return (Num V), w') →
  let digits := to_String (Num V) in
  let result := replace_all VERSION_MARKER digits replaced in
  (resolveString getWorkspaceFolder pattern resource exportExt w).1
  = Return result
  ∧ (∀ a b, replaced = a +:+ VERSION_MARKER +:+ b →
       result = replace_all VERSION_MARKER digits a +:+ digits
                +:+ replace_all VERSION_MARKER digits b)
  ∧ (V ≤ 2 ^ 53 →
     digits = pretty V
     ∧ Number (Some digits) = Num V
     ∧ includes VERSION_MARKER result = false).
Proof.
  intros Hreplaced Hm Hv digits result. subst digits result.
  assert (1 ≤ V) as HV.
  { destruct (getVersionNumber_outcome replaced resource w Hm)
      as [[e He]|[He|[He|(V' & HV & He)]]];
      rewrite Hv in He; simplify_eq/=; lia. }
  rewrite (resolveString_run _ _ _ _ _ _ _ _ Hreplaced Hv). cbv zeta.
  rewrite !bool_decide_eq_false_2 by (intros [=]; lia).
  split; [done|]. split.
  - intros a b ->. apply replace_all_marker.
  - intros Hsafe.
    destruct (to_String_decimal V) as (d & ds & Hs & Hd & Hds & Hback); [lia|].
    split; [apply to_String_safe; lia|]. split; [done|].
    rewrite Hs. by apply replace_all_from_no_marker_left.
Qed.

(** X3.  No run of [resolveString] calls the notifier: the scanner never
    answers -2, so the case of the [switch] that shows the error message is
    never taken. *)
Theorem resolveString_never_notifies (pattern : option string)
    (resource : Uri) (exportExt : option string) (w : World) :
  List.filter is_notification
    (log (resolveString getWorkspaceFolder pattern resource exportExt w).2)
  = List.filter is_notification (log w).
Proof.
  destruct (intermediate getWorkspaceFolder pattern resource exportExt)
    as [replaced|e] eqn:Hreplaced;
    [|by rewrite (resolveString_evaluator_throws _ _ _ _ _ _ Hreplaced)].
  destruct (getVersionNumber_never_minus_two replaced resource w)
    as [Hnot Hlog].
  destruct (getVersionNumber replaced resource w) as [[version|e] w'] eqn:Hv.
  - rewrite (resolveString_run _ _ _ _ _ _ _ _ Hreplaced Hv). cbv zeta.
    cbn [fst snd] in Hnot, Hlog.
    case_bool_decide as H1; [|rewrite bool_decide_eq_false_2 by congruence];
      cbn [snd log]; rewrite List.filter_app, Hlog; simpl;
      by rewrite app_nil_r.
  - by rewrite (resolveString_scanner_throws _ _ _ _ _ _ _ _ Hreplaced Hv).
Qed.

End resolver.

(** ** The claims in the concrete setting *)

(** C4 for the entries [part_v1.stl], [part_v5.stl] and [part_v2.stl]: the
    next version is 6. *)
Lemma getVersionNumber_next_version_witness :
  ∃ m,
    (VariableResolver.getVersionNumber (H := Scenario.api) "part_v${#}.stl"
       Scenario.part
       (Scenario.world
          ["part.scad"; "part_v1.stl"; "part_v5.stl"; "part_v2.stl"] true)).1
    = Effects.Return (JsNumber.Num (m + 1))
    ∧ m + 1 = 6.
Proof.
  destruct
    (getVersionNumber_next_version (H := Scenario.api) "part_v${#}.stl"
       Scenario.part
       (Scenario.world
          ["part.scad"; "part_v1.stl"; "part_v5.stl"; "part_v2.stl"] true)
       (Reference.marker_to_group "part_v${#}.stl") eq_refl eq_refl)
    as (Hlisted & _ & _).
  destruct
    (Hlisted ["part.scad"; "part_v1.stl"; "part_v5.stl"; "part_v2.stl"] true
       [1; 5; 2])
    as (m & Hrun & _ & _ & _ & H6).
  - vm_compute. reflexivity.
  - vm_compute. reflexivity.
  - intros n Hn%list_elem_of_In. simpl in Hn. lia.
  - exists m. split; [exact Hrun|]. apply H6. intros n.
    rewrite !list_elem_of_In. simpl. tauto.
Defined.

(** C4 as stated fails: next to [part_v9007199254740992.stl], whose number
    2^53 is captured as it is, the scanner answers 2^53 again and not
    2^53 + 1, and the number 2^53 + 1 of [part_v9007199254740993.stl] is
    read as 2^53. *)
Lemma unsafe_version_is_not_counted_up :
  Reference.captured (Reference.marker_to_group "part_v${#}.stl")
    ["part_v9007199254740992.stl"]
  = [JsNumber.Num 9007199254740992]
  ∧ (VariableResolver.getVersionNumber (H := Scenario.api) "part_v${#}.stl"
       Scenario.part
       (Scenario.world ["part_v9007199254740992.stl"] true)).1
    = Effects.Return (JsNumber.Num 9007199254740992)
  ∧ (VariableResolver.getVersionNumber (H := Scenario.api) "part_v${#}.stl"
       Scenario.part
       (Scenario.world ["part_v9007199254740993.stl"] true)).1
    = Effects.Return (JsNumber.Num 9007199254740992).
Proof. repeat split; vm_compute; reflexivity. Qed.

(** C7 as stated fails: for the basename [${#}.stl] the entry [01.stl],
    whose number is written with a leading zero, matches, one character to
    the right, and counts as version 1. *)
Lemma leading_zero_entry_is_matched :
  JsRegExp.RegExp
    (VariableResolver.patternRegex_source (H := Scenario.api) "${#}.stl")
  = Some [JsRegExp.RVersion; JsRegExp.RChar "."; JsRegExp.RChar "s";
          JsRegExp.RChar "t"; JsRegExp.RChar "l"]
  ∧ JsRegExp.exec
      [JsRegExp.RVersion; JsRegExp.RChar "."; JsRegExp.RChar "s";
       JsRegExp.RChar "t"; JsRegExp.RChar "l"] "01.stl"
    = Some ["1"]
  ∧ (VariableResolver.getVersionNumber (H := Scenario.api) "${#}.stl"
       Scenario.part (Scenario.world ["01.stl"] true)).1
    = Effects.Return (JsNumber.Num 2).
Proof. repeat split; vm_compute; reflexivity. Qed.

(** C8 for the pattern [out/part_v${#}.stl]: the missing directory
    [/proj/src/out] is checked, made and listed. *)
Lemma getVersionNumber_destination_witness :
  List.filter Effects.is_fs_event
    (Effects.log
       (VariableResolver.getVersionNumber (H := Scenario.api)
          "out/part_v${#}.stl" Scenario.part
          (Scenario.world ["part.scad"] true)).2)
  = [Effects.ExistsSync "/proj/src/out"; Effects.MkdirSync "/proj/src/out";
     Effects.Readdir "/proj/src/out"].
Proof.
  destruct
    (getVersionNumber_destination (H := Scenario.api) "out/part_v${#}.stl"
       Scenario.part (Scenario.world ["part.scad"] true) eq_refl)
    as (_ & Hmade & _).
  destruct (Hmade ["part.scad"] true) as [_ Hlog];
    [vm_compute; reflexivity..|].
  exact Hlog.
Defined.


(** C1 for the unreadable directory [/proj/src]: the call throws -2. *)
Lemma resolveString_listing_failure_witness :
  (VariableResolver.resolveString (H := Scenario.api) Scenario.project
     (Some "${fileBasenameNoExtension}_v${#}.stl") Scenario.part None
     (Scenario.world ["part.scad"; "part_v1.stl"] false)).1
  = Effects.Throw (Effects.Thrown (JsNumber.Num (-2))).
Proof.
  apply
    (resolveString_listing_failure (H := Scenario.api) Scenario.project
       (Some "${fileBasenameNoExtension}_v${#}.stl") Scenario.part None
       (Scenario.world ["part.scad"; "part_v1.stl"] false) "part_v${#}.stl"
       (Effects.Dir ["part.scad"; "part_v1.stl"] false true));
    [vm_compute; reflexivity..|].
  intros entries writable. discriminate.
Defined.

(** C5 for the pattern [${workspaceFolderBasename}/${fileBasename}]. *)
Lemma resolveString_without_marker_witness :
  VariableResolver.resolveString (H := Scenario.api) Scenario.project
    (Some "${workspaceFolderBasename}/${fileBasename}") Scenario.part None
    (Scenario.world ["part.scad"] true)
  = (Effects.Return "proj/part.scad",
     Effects.mkWorld (Scenario.disk ["part.scad"] true)
       [Effects.ConsoleLog "Version number: -1"]).
Proof.
  apply
    (resolveString_without_marker (H := Scenario.api) Scenario.project
       (Some "${workspaceFolderBasename}/${fileBasename}") Scenario.part None
       (Scenario.world ["part.scad"] true) "proj/part.scad");
    vm_compute; reflexivity.
Defined.

(** C9 for the pattern [${fileBasenameNoExtension}_v${#}_${#}.stl]: both
    markers become the version. *)
Lemma resolveString_substitutes_version_witness :
  (VariableResolver.resolveString (H := Scenario.api) Scenario.project
     (Some "${fileBasenameNoExtension}_v${#}_${#}.stl") Scenario.part None
     (Scenario.world ["part.scad"] true)).1
  = Effects.Return "part_v1_1.stl".
Proof.
  apply
    (resolveString_substitutes_version (H := Scenario.api) Scenario.project
       (Some "${fileBasenameNoExtension}_v${#}_${#}.stl") Scenario.part None
       (Scenario.world ["part.scad"] true)
       (VariableResolver.getVersionNumber (H := Scenario.api)
          "part_v${#}_${#}.stl" Scenario.part
          (Scenario.world ["part.scad"] true)).2
       "part_v${#}_${#}.stl" 1);
    vm_compute; reflexivity.
Defined.

(** C9 as stated fails: next to [part_v18446744073709551616.stl] the
    scanner answers 2^64, and the markers become the digits
    18446744073709552000 that [String] writes for it, which are not the
    decimal representation of 2^64; from 10^21 [String] writes an
    exponent. *)
Lemma large_version_is_not_written_out :
  (VariableResolver.getVersionNumber (H := Scenario.api) "part_v${#}.stl"
     Scenario.part
     (Scenario.world ["part_v18446744073709551616.stl"] true)).1
  = Effects.Return (JsNumber.Num 18446744073709551616)
  ∧ (VariableResolver.resolveString (H := Scenario.api) Scenario.project
       (Some "${fileBasenameNoExtension}_v${#}.stl") Scenario.part None
       (Scenario.world ["part_v18446744073709551616.stl"] true)).1
    = Effects.Return "part_v18446744073709552000.stl"
  ∧ JsString.replace_all VariableResolver.VERSION_MARKER
      (pretty 18446744073709551616) "part_v${#}.stl"
    = "part_v18446744073709551616.stl"
  ∧ (VariableResolver.getVersionNumber (H := Scenario.api) "part_v${#}.stl"
       Scenario.part
       (Scenario.world ["part_v1000000000000000000000.stl"] true)).1
    = Effects.Return (JsNumber.Num 1000000000000000000000)
  ∧ (VariableResolver.resolveString (H := Scenario.api) Scenario.project
       (Some "${fileBasenameNoExtension}_v${#}.stl") Scenario.part None
       (Scenario.world ["part_v1000000000000000000000.stl"] true)).1
    = Effects.Return "part_v1e+21.stl".
Proof. repeat split; vm_compute; reflexivity. Qed.

(** ** Further runs in the concrete setting *)

(** X1 at the name [noMatch]. *)
Lemma evaluateSingleVariable_echo_idempotent_witness :
  VariableResolver.replace_variables
    (λ m v,
       VariableResolver.evaluateSingleVariable (H := Scenario.api)
         Scenario.project m v Scenario.part None)
    "${noMatch}"
  = Effects.Return "${noMatch}".
Proof.
  apply
    (evaluateSingleVariable_echo_idempotent (H := Scenario.api)
       Scenario.project "noMatch" Scenario.part None
       {| uri := {| fsPath := "/proj" |} |});
    [reflexivity| |reflexivity].
  intros Hin%list_elem_of_In. simpl in Hin. intuition discriminate.
Defined.

(** The table at [relativeFile]. *)
Lemma evaluateSingleVariable_table_witness :
  VariableResolver.evaluateSingleVariable (H := Scenario.api)
    Scenario.project "${relativeFile}" "relativeFile" Scenario.part None
  = Effects.Return "src/part.scad".
Proof.
  apply
    (evaluateSingleVariable_table (H := Scenario.api) Scenario.project
       "${relativeFile}" Scenario.part None
       {| uri := {| fsPath := "/proj" |} |}).
  reflexivity.
Defined.

(** X2 next to [part_v1.stl] and [part_v3.stl]. *)
Lemma getVersionNumber_resolved_positive_witness :
  (VariableResolver.getVersionNumber (H := Scenario.api) "part_v${#}.stl"
     Scenario.part
     (Scenario.world ["part.scad"; "part_v1.stl"; "part_v3.stl"] true)).1
  = Effects.Return (JsNumber.Num 4)
  ∧ 1 ≤ 4.
Proof.
  split; [vm_compute; reflexivity|].
  apply
    (getVersionNumber_resolved_positive (H := Scenario.api) "part_v${#}.stl"
       Scenario.part
       (Scenario.world ["part.scad"; "part_v1.stl"; "part_v3.stl"] true)
       (VariableResolver.getVersionNumber (H := Scenario.api)
          "part_v${#}.stl" Scenario.part
          (Scenario.world ["part.scad"; "part_v1.stl"; "part_v3.stl"] true)).2
       4);
    vm_compute; reflexivity.
Defined.

(** * Further properties *)

(** ** The scan of a pattern for placeholders *)

Section placeholder_scan.
Import JsString JsNumber Reference Effects VariableResolver.

Lemma includes_cons (needle : string) (c : ascii) (s : string) :
  includes needle (String c s)
  = startsWith needle (String c s) || includes needle s.
Proof. reflexivity. Qed.

Lemma lazy_until_brace_cons (c : ascii) (s : string) :
  lazy_until_brace (String c s)
  = if bool_decide (c = "}"%char) then Some EmptyString
    else if is_line_terminator c then None
    else String c <$> lazy_until_brace s.
Proof. reflexivity. Qed.

Lemma lazy_until_brace_capturable (name rest : string) :
  capturable name = true →
  lazy_until_brace (name +:+ "}" +:+ rest) = Some name.
Proof.
  induction name as [|c name IH]; [done|]. intros Hname. simpl in Hname.
  apply andb_true_iff in Hname as [[Hc Hlt]%andb_true_iff Hname].
  apply negb_true_iff in Hc, Hlt.
  by rewrite append_cons, lazy_until_brace_cons, Hc, Hlt, IH.
Qed.

(** What the scan captures is a name in the sense of [capturable], and a
    closing brace follows it. *)
Lemma lazy_until_brace_inv (s name : string) :
  lazy_until_brace s = Some name →
  capturable name = true ∧ ∃ rest, s = name +:+ "}" +:+ rest.
Proof.
  revert name. induction s as [|c s IH]; intros name; [done|].
  rewrite lazy_until_brace_cons. case_bool_decide as Hc.
  - intros [= <-]. split; [done|]. exists s. by rewrite Hc.
  - destruct (is_line_terminator c) eqn:Hlt; [done|].
    destruct (lazy_until_brace s) as [v|] eqn:E; [|done].
    intros [= <-]. destruct (IH v eq_refl) as [Hv [rest ->]].
    split; [|by exists rest]. simpl.
    by rewrite bool_decide_eq_false_2, Hlt, Hv.
Qed.

Lemma replace_variables_from_skip (callback : string → string → outcome string)
    (name : string) (c d : ascii) (rest : string) :
  replace_variables_from callback (2 + String.length name)
    (String c (name +:+ String d rest))
  = replace_variables_from callback 0 rest.
Proof.
  change (replace_variables_from callback (S (String.length name))
            (name +:+ String d rest)
          = replace_variables_from callback 0 rest).
  induction name as [|e name IH]; [done|]. by rewrite append_cons.
Qed.

(** A text without [${] is left as it is, and the callback is not
    called. *)
Lemma replace_variables_plain (callback : string → string → outcome string)
    (s : string) :
  includes "${" s = false → replace_variables callback s = Return s.
Proof.
  unfold replace_variables. induction s as [|c s IH]; [done|].
  rewrite includes_cons. intros [Hc Hs]%orb_false_iff.
  rewrite replace_variables_from_cons. unfold VARIABLE_REGEXP_match.
  by rewrite Hc, IH.
Qed.

(** The first placeholder of a text: what stands before it is kept, the
    callback gives its value, and the text after it is scanned on its
    own. *)
Lemma replace_variables_first (callback : string → string → outcome string)
    (a name b : string) :
  includes "${" a = false →
  capturable name = true →
  replace_variables callback (a +:+ "${" +:+ name +:+ "}" +:+ b)
  = outcome_bind
      (λ value,
         outcome_map (λ rest, a +:+ value +:+ rest)
           (replace_variables callback b))
      (callback ("${" +:+ name +:+ "}") name).
Proof.
  intros Ha Hname. unfold replace_variables.
  induction a as [|c a IH].
  - rewrite append_empty_l.
    change ("${" +:+ name +:+ "}" +:+ b)
      with (String "$" (String "{" (name +:+ String "}" b))).
    rewrite replace_variables_from_cons. unfold VARIABLE_REGEXP_match.
    change (startsWith "${" (String "$" (String "{" ?s))) with true.
    cbv iota.
    change (slice_from 2 (String "$" (String "{" (name +:+ String "}" b))))
      with (name +:+ "}" +:+ b).
    rewrite lazy_until_brace_capturable by done.
    destruct (callback _ name) as [value|e]; [|done]. cbn [outcome_bind].
    by rewrite replace_variables_from_skip.
  - rewrite includes_cons in Ha. apply orb_false_iff in Ha as [Hc Ha].
    rewrite append_cons, replace_variables_from_cons.
    unfold VARIABLE_REGEXP_match.
    replace (startsWith "${" (String c (a +:+ "${" +:+ name +:+ "}" +:+ b)))
      with false.
    + rewrite IH by done.
      destruct (callback _ name) as [value|e]; [|done]. cbn [outcome_bind].
      by destruct (replace_variables_from callback 0 b).
    + destruct a as [|d a]; simpl in Hc |- *;
        repeat (case_bool_decide; simpl in *; try done).
Qed.

(** The scan throws what the callback throws and nothing else. *)
Lemma replace_variables_throws (callback : string → string → outcome string)
    (s : string) (e : exn) :
  replace_variables callback s = Throw e →
  ∃ m v, callback m v = Throw e.
Proof.
  unfold replace_variables. generalize 0%nat as k. revert e.
  induction s as [|c s IH]; intros e k; [done|].
  rewrite replace_variables_from_cons. destruct k as [|k]; [|apply IH].
  destruct (VARIABLE_REGEXP_match (String c s)) as [variable|].
  - destruct (callback _ variable) as [value|e'] eqn:Hcall.
    + cbn [outcome_bind].
      destruct (replace_variables_from callback _ s) as [rest|e'] eqn:Hrest;
        [done|].
      intros [= <-]. by eapply IH.
    + intros [= <-]. by eexists _, _.
  - destruct (replace_variables_from callback 0 s) as [rest|e'] eqn:Hrest;
      [done|].
    intros [= <-]. by eapply IH.
Qed.

End placeholder_scan.

(** ** Which entries match, and what they capture *)

Section matching.
Import JsString JsNumber JsRegExp Reference Effects VariableResolver.

Lemma includes_prefixed (needle pre s : string) :
  startsWith needle s = true → includes needle (pre +:+ s) = true.
Proof.
  intros Hs%startsWith_inv. rewrite Hs. apply includes_append.
Qed.

Lemma includes_app_l (needle a b : string) :
  includes needle a = true → includes needle (a +:+ b) = true.
Proof.
  intros (x & y & ->)%includes_inv. rewrite !append_assoc.
  apply includes_append.
Qed.

Lemma includes_app_r (needle a b : string) :
  includes needle b = true → includes needle (a +:+ b) = true.
Proof.
  intros (x & y & ->)%includes_inv. rewrite <- append_assoc.
  apply includes_append.
Qed.

(** An expression of literals matches the texts that hold its text. *)
Lemma exec_literal (b file : string) :
  is_Some (exec (literal b) file) ↔ includes b file = true.
Proof.
  split.
  - intros [caps (pre & s' & -> & Hm)%exec_sound].
    rewrite match_here_literal_nil in Hm.
    destruct (startsWith b s') eqn:Hb; [|done]. by apply includes_prefixed.
  - intros (x & y & ->)%includes_inv. apply exec_complete.
    by rewrite match_here_literal_nil, startsWith_append.
Qed.

Lemma startsWith_refl (s : string) : startsWith s s = true.
Proof.
  induction s as [|c s IH]; [done|]. simpl.
  by rewrite bool_decide_eq_true_2, IH.
Qed.

Lemma exec_here (re : regexp) (s : string) caps :
  match_here re s = Some caps → exec re s = Some caps.
Proof. intros Hm. destruct s; simpl; by rewrite Hm. Qed.

(** The run of digits stops where the caller says, when no longer run
    lets the rest of the expression match. *)
Lemma digits_then_exact k (cap ds s' : string) r :
  all_digits ds = true →
  k (cap +:+ ds) s' = Some r →
  (∀ e s'', e ≠ EmptyString → s' = e +:+ s'' →
     k (cap +:+ ds +:+ e) s'' = None) →
  digits_then k cap (ds +:+ s') = Some r.
Proof.
  revert cap. induction ds as [|d ds IH]; intros cap Hds Hk Hlonger.
  - rewrite append_empty_l. rewrite append_empty_r in Hk.
    destruct s' as [|c s'']; [done|]. simpl.
    destruct (is_digit c); [|done].
    destruct (digits_then k (cap +:+ String c EmptyString) s'')
      as [r'|] eqn:E; [|done].
    apply digits_then_sound in E as (ds2 & s3 & -> & _ & Hk').
    pose proof (Hlonger (String c ds2) s3 ltac:(done) eq_refl) as Hnone.
    rewrite append_assoc in Hk'.
    change (cap +:+ EmptyString +:+ String c ds2)
      with (cap +:+ String c EmptyString +:+ ds2) in Hnone.
    congruence.
  - simpl in Hds. apply andb_true_iff in Hds as [Hd Hds].
    rewrite append_cons. simpl. rewrite Hd.
    rewrite (IH (cap +:+ String d EmptyString)); [done|done| |].
    + by rewrite append_assoc.
    + intros e s'' He Hs'. rewrite append_assoc. by apply Hlonger.
Qed.

(** The entry named by the basename with a version in place of its first
    marker matches at its beginning and gives that version back. *)
Lemma exec_group_exact (b before after v : string) :
  split_at_marker b = Some (before, after) →
  is_version v = true →
  exec (marker_to_group b) (before +:+ v +:+ after) = Some [v].
Proof.
  unfold marker_to_group. intros -> Hv. apply exec_here.
  rewrite match_here_literal, startsWith_append, slice_from_append.
  destruct v as [|d ds]; [done|]. simpl in Hv.
  apply andb_true_iff in Hv as [Hd Hds].
  rewrite append_cons. simpl. rewrite Hd.
  apply digits_then_exact; [done| |].
  - by rewrite match_here_literal_nil, startsWith_refl.
  - intros e s'' He Hs'. rewrite match_here_literal_nil.
    destruct (startsWith after s'') eqn:E; [|done].
    apply startsWith_length in E. rewrite Hs', length_append in E.
    destruct e; [done|]. simpl in E. lia.
Qed.

End matching.

(** ** More on the version scanner *)

Section scanner_more.
Import JsString JsNumber JsRegExp Reference Effects VariableResolver.
Context `{PathApi}.

(** X4.  The expression of the scanner is built for every pattern, and it
    takes every character of the basename at its word: with a marker in the
    basename it matches the entries that hold the text before the marker, a
    version, and the text after the marker, in a row; without one it
    matches the entries that hold the basename. *)
Theorem patternRegex_matches (pattern : string) :
  ∃ re, RegExp (patternRegex_source pattern) = Some re
    ∧ ∀ file,
        match split_at_marker (basename pattern) with
        | Some (before, after) =>
            is_Some (exec re file)
            ↔ ∃ x v y, is_version v = true
                       ∧ file = x +:+ before +:+ v +:+ after +:+ y
        | None =>
            is_Some (exec re file) ↔ includes (basename pattern) file = true
        end.
Proof.
  exists (marker_to_group (basename pattern)).
  split; [apply patternRegex_built|]. intros file.
  destruct (split_at_marker (basename pattern)) as [[before after]|] eqn:Hb.
  - split.
    + intros [caps Hexec].
      destruct (exec_group_sound _ _ _ _ _ Hb Hexec)
        as (v & x & y & _ & Hv & ->).
      by exists x, v, y.
    + intros (x & v & y & Hv & ->). by apply exec_group_complete.
  - unfold marker_to_group. rewrite Hb. apply exec_literal.
Qed.

(** X5.  The order in which the directory lists its entries has no say in
    the answer of the scanner. *)
Theorem getVersionNumber_order_irrelevant (pattern : string) (resource : Uri)
    (w w2 : World) (entries entries2 : list string) (writable writable2 : bool) :
  files w !! fileDir_of pattern resource = Some (Dir entries true writable) →
  files w2 !! fileDir_of pattern resource
  = Some (Dir entries2 true writable2) →
  entries ≡ₚ entries2 →
  (getVersionNumber pattern resource w).1
  = (getVersionNumber pattern resource w2).1.
Proof.
  intros Hdir Hdir2 Hperm.
  destruct (includes VERSION_MARKER pattern) eqn:Hm;
    [|by rewrite !getVersionNumber_no_marker].
  rewrite (getVersionNumber_listed_answer _ _ _ entries writable) by done.
  rewrite (getVersionNumber_listed_answer _ _ _ entries2 writable2) by done.
  by rewrite (fold_reducer_permutation _ _ _ _ Hperm).
Qed.

(** X6.  More entries never lower the answer: where the scanner answers
    with integers for a listing and for a listing that holds it, the second
    integer is not the smaller one. *)
Theorem getVersionNumber_monotone (pattern : string) (resource : Uri)
    (w w2 : World) (entries more entries2 : list string)
    (writable writable2 : bool) (V V2 : Z) :
  includes VERSION_MARKER pattern = true →
  files w !! fileDir_of pattern resource = Some (Dir entries true writable) →
  files w2 !! fileDir_of pattern resource
  = Some (Dir entries2 true writable2) →
  entries2 ≡ₚ entries ++ more →
  (getVersionNumber pattern resource w).1 = Return (Num V) →
  (getVersionNumber pattern resource w2).1 = Return (Num V2) →
  V ≤ V2.
Proof.
  intros Hm Hdir Hdir2 Hperm.
  rewrite (getVersionNumber_listed_answer _ _ _ entries writable) by done.
  rewrite (getVersionNumber_listed_answer _ _ _ entries2 writable2) by done.
  rewrite (fold_reducer_permutation _ _ _ _ Hperm), fold_left_app.
  destruct (fold_left _ entries (Num 0)) as [m| |] eqn:Hfold; [|done..].
  pose proof (fold_reducer_nonneg _ _ 0 _ ltac:(done) Hfold) as Hm0.
  rewrite fold_reducer_from by done.
  destruct (fold_left _ more (Num 0)) as [k| |] eqn:Hmore; [|done..].
  pose proof (fold_reducer_nonneg _ _ 0 _ ltac:(done) Hmore) as Hk0.
  cbn [Math_max]. intros [= HV] [= HV2].
  apply (succ_mono m (Z.max m k)); [lia|done..].
Qed.

(** X7.  Resolving, exporting, resolving again counts up: where the
    scanner answers [V], [V] below 2^53, and the entry named by the
    basename with [V] in place of its first marker joins the directory,
    the next answer is [V + 1]. *)
Theorem getVersionNumber_after_export (pattern : string) (resource : Uri)
    (w w2 : World) (before after : string) (entries entries2 : list string)
    (writable writable2 : bool) (V : Z) :
  includes VERSION_MARKER pattern = true →
  split_at_marker (basename pattern) = Some (before, after) →
  files w !! fileDir_of pattern resource = Some (Dir entries true writable) →
  (getVersionNumber pattern resource w).1 = Return (Num V) →
  V < 2 ^ 53 →
  files w2 !! fileDir_of pattern resource
  = Some (Dir entries2 true writable2) →
  entries2 ≡ₚ (before +:+ to_String (Num V) +:+ after) :: entries →
  (getVersionNumber pattern resource w2).1 = Return (Num (V + 1)).
Proof.
  intros Hm Hb Hdir Hrun Hsafe Hdir2 Hperm.
  rewrite (getVersionNumber_listed_answer _ _ _ entries writable) in Hrun
    by done.
  rewrite (getVersionNumber_listed_answer _ _ _ entries2 writable2) by done.
  rewrite (fold_reducer_permutation _ _ _ _ Hperm).
  destruct (fold_left _ entries (Num 0)) as [m| |] eqn:Hfold; [|done..].
  pose proof (fold_reducer_nonneg _ _ 0 _ ltac:(done) Hfold) as Hm0.
  injection Hrun as Hrun.
  apply double_safe_inv in Hrun; [|lia|done]. subst V.
  destruct (to_String_version (m + 1)) as [Hv Hback]; [lia|].
  cbn [fold_left]. unfold reducer at 2.
  rewrite (exec_group_exact _ _ _ _ Hb Hv).
  change (capture1 [to_String (Num (m + 1))])
    with (Some (to_String (Num (m + 1)))).
  rewrite Hback. cbn [Math_max].
  rewrite fold_reducer_from, Hfold by lia. cbn [Math_max].
  rewrite succ_safe by lia. do 2 f_equal. lia.
Qed.

(** X8.  A second marker in the basename stays in the expression as text:
    where the text after the first marker holds a marker, only entries with
    a marker in their name can match, so with no such entry the answer is
    1 however many files the resolver has named. *)
Theorem getVersionNumber_second_marker (pattern : string) (resource : Uri)
    (w : World) (before after : string) (entries : list string)
    (writable : bool) :
  includes VERSION_MARKER pattern = true →
  split_at_marker (basename pattern) = Some (before, after) →
  includes VERSION_MARKER after = true →
  files w !! fileDir_of pattern resource = Some (Dir entries true writable) →
  (∀ file, file ∈ entries → includes VERSION_MARKER file = false) →
  (getVersionNumber pattern resource w).1 = Return (Num 1).
Proof.
  intros Hm Hb Hafter Hdir Hplain.
  rewrite (getVersionNumber_listed_answer _ _ _ entries writable) by done.
  rewrite fold_reducer_no_match; [done|].
  intros file Hfile.
  destruct (exec (marker_to_group (basename pattern)) file) as [caps|] eqn:E;
    [|done].
  destruct (exec_group_sound _ _ _ _ _ Hb E) as (v & x & y & _ & _ & ->).
  apply Hplain in Hfile.
  assert (includes VERSION_MARKER (x +:+ before +:+ v +:+ after +:+ y) = true)
    by (by apply includes_app_r, includes_app_r, includes_app_r,
          includes_app_l).
  congruence.
Qed.

End scanner_more.

(** ** More on the pattern resolver *)

Section resolver_more.
Import JsString JsNumber JsRegExp Reference Effects VariableResolver.
Context `{PathApi}.
Variable getWorkspaceFolder : Uri → option WorkspaceFolder.

Lemma includes_marker_placeholder (s : string) :
  includes VERSION_MARKER s = true → includes "${" s = true.
Proof.
  intros (a & b & ->)%includes_inv.
  change (VERSION_MARKER +:+ b) with ("${" +:+ "#}" +:+ b).
  apply includes_append.
Qed.

(** The exceptions of the scanner: the rejection with -2 and the errors of
    [mkdirSync]. *)
Lemma getVersionNumber_throws (pattern : string) (resource : Uri) (w : World)
    (e : exn) :
  (getVersionNumber pattern resource w).1 = Throw e →
  e = Thrown (Num (-2))
  ∨ ∃ code, e = SystemError code "mkdir" (fileDir_of pattern resource).
Proof.
  destruct (includes VERSION_MARKER pattern) eqn:Hm;
    [|by rewrite getVersionNumber_no_marker].
  destruct (files w !! fileDir_of pattern resource)
    as [[|entries [] writable]|] eqn:Hdir.
  - rewrite (getVersionNumber_unlistable _ _ _ File) by done.
    intros [= <-]. by left.
  - by rewrite (getVersionNumber_listed _ _ _ entries writable).
  - rewrite (getVersionNumber_unlistable _ _ _ (Dir entries false writable))
      by done.
    intros [= <-]. by left.
  - destruct (files w !! dirname (fileDir_of pattern resource))
      as [[|es readable []]|] eqn:Hparent.
    2: by rewrite (getVersionNumber_created _ _ _ es readable).
    all: destruct (getVersionNumber_not_created pattern resource w)
           as [code ->]; [done|done|congruence|].
    all: intros [= <-]; right; by exists code.
Qed.

(** An answer of the scanner rests on the files alone, and the scanner gives
    it again in the world it leaves. *)
Lemma getVersionNumber_again (pattern : string) (resource : Uri)
    (w w2 : World) (v : number) :
  (getVersionNumber pattern resource w).1 = Return v →
  files w2 = files (getVersionNumber pattern resource w).2 →
  (getVersionNumber pattern resource w2).1 = Return v.
Proof.
  destruct (includes VERSION_MARKER pattern) eqn:Hm;
    [|by rewrite !getVersionNumber_no_marker].
  destruct (files w !! fileDir_of pattern resource)
    as [[|entries [] writable]|] eqn:Hdir.
  - by rewrite (getVersionNumber_unlistable _ _ _ File).
  - rewrite (getVersionNumber_listed_answer _ _ _ entries writable) by done.
    rewrite (getVersionNumber_listed _ _ _ entries writable) by done.
    cbv zeta. cbn [snd files]. intros Hv Hfiles.
    rewrite (getVersionNumber_listed_answer _ _ _ entries writable);
      [done|done|by rewrite Hfiles].
  - by rewrite (getVersionNumber_unlistable _ _ _ (Dir entries false writable)).
  - destruct (files w !! dirname (fileDir_of pattern resource))
      as [[|es readable []]|] eqn:Hparent.
    2: { rewrite (getVersionNumber_created _ _ _ es readable) by done.
         cbv zeta. cbn [fst snd files]. intros Hv Hfiles.
         rewrite (getVersionNumber_listed_answer _ _ _ [] true);
           [done|done|by rewrite Hfiles, lookup_insert_eq]. }
    all: destruct (getVersionNumber_not_created pattern resource w)
           as [code ->]; [done|done|congruence|done].
Qed.

(** The file system [resolveString] leaves is the one the scanner
    leaves. *)
Lemma resolveString_files (pattern : option string) (resource : Uri)
    (exportExt : option string) (w : World) (replaced : string) :
  intermediate getWorkspaceFolder pattern resource exportExt = Return replaced →
  files (resolveString getWorkspaceFolder pattern resource exportExt w).2
  = files (getVersionNumber replaced resource w).2.
Proof.
  intros Hreplaced.
  destruct (getVersionNumber replaced resource w) as [[version|e] w'] eqn:Hv.
  - rewrite (resolveString_run _ _ _ _ _ _ _ _ Hreplaced Hv). cbv zeta.
    by repeat case_bool_decide.
  - by rewrite (resolveString_scanner_throws _ _ _ _ _ _ _ _ Hreplaced Hv).
Qed.

(** The string [resolveString] returns for an answer of the scanner. *)
Lemma resolveString_answer (pattern : option string) (resource : Uri)
    (exportExt : option string) (w : World) (replaced : string)
    (version : number) :
  intermediate getWorkspaceFolder pattern resource exportExt = Return replaced →
  (getVersionNumber replaced resource w).1 = Return version →
  (resolveString getWorkspaceFolder pattern resource exportExt w).1
  = Return
      (if bool_decide (version = Num (-1)) then replaced
       else if bool_decide (version = Num (-2)) then replaced
       else replace_all VERSION_MARKER (to_String version) replaced).
Proof.
  intros Hreplaced Hv.
  destruct (getVersionNumber replaced resource w) as [o w'] eqn:Hrun.
  simpl in Hv. subst o.
  rewrite (resolveString_run _ _ _ _ _ _ _ _ Hreplaced Hrun). cbv zeta.
  by repeat case_bool_decide.
Qed.

(** X9.  A version is not reserved: a second call of [resolveString], in
    the world the first call leaves, returns the string the first call
    returned. *)
Theorem resolveString_repeatable (pattern : option string) (resource : Uri)
    (exportExt : option string) (w : World) (s : string) :
  (resolveString getWorkspaceFolder pattern resource exportExt w).1 = Return s →
  (resolveString getWorkspaceFolder pattern resource exportExt
     (resolveString getWorkspaceFolder pattern resource exportExt w).2).1
  = Return s.
Proof.
  destruct (intermediate getWorkspaceFolder pattern resource exportExt)
    as [replaced|e] eqn:Hreplaced;
    [|by rewrite (resolveString_evaluator_throws _ _ _ _ _ _ Hreplaced)].
  destruct (getVersionNumber replaced resource w) as [[version|e] w'] eqn:Hv;
    [|by rewrite (resolveString_scanner_throws _ _ _ _ _ _ _ _ Hreplaced Hv)].
  assert ((getVersionNumber replaced resource w).1 = Return version) as Hv1
    by (by rewrite Hv).
  rewrite (resolveString_answer _ _ _ w _ _ Hreplaced Hv1). intros <-.
  apply resolveString_answer; [done|].
  apply (getVersionNumber_again _ _ w); [done|].
  by apply resolveString_files.
Qed.

(** X10.  What [resolveString] can throw: the TypeError of the evaluator
    for a file without workspace folder, an error of [mkdirSync], or the
    -2 of a failed listing; never a SyntaxError of the expression it
    builds.  The TypeError comes before any event and any change. *)
Theorem resolveString_exceptions (pattern : option string) (resource : Uri)
    (exportExt : option string) (w : World) (e : exn) :
  (resolveString getWorkspaceFolder pattern resource exportExt w).1 = Throw e →
  (e = TypeError "Cannot read properties of undefined (reading 'uri')"
   ∧ getWorkspaceFolder resource = None
   ∧ (resolveString getWorkspaceFolder pattern resource exportExt w).2 = w)
  ∨ (∃ code dir, e = SystemError code "mkdir" dir)
  ∨ e = Thrown (Num (-2)).
Proof.
  destruct (intermediate getWorkspaceFolder pattern resource exportExt)
    as [replaced|e'] eqn:Hreplaced.
  - destruct (getVersionNumber replaced resource w) as [[version|e'] w'] eqn:Hv.
    + assert ((getVersionNumber replaced resource w).1 = Return version)
        as Hv1 by (by rewrite Hv).
      by rewrite (resolveString_answer _ _ _ w _ _ Hreplaced Hv1).
    + rewrite (resolveString_scanner_throws _ _ _ _ _ _ _ _ Hreplaced Hv).
      intros [= <-]. right.
      destruct (getVersionNumber_throws replaced resource w e')
        as [->|[code ->]]; [by rewrite Hv|by right|].
      left. by eexists _, _.
  - rewrite (resolveString_evaluator_throws _ _ _ _ _ _ Hreplaced).
    intros [= <-]. left.
    unfold intermediate in Hreplaced.
    apply replace_variables_throws in Hreplaced as (m & v & Hcall).
    unfold evaluateSingleVariable in Hcall.
    destruct (getWorkspaceFolder resource) as [folder|]; [|by simplify_eq].
    by repeat (case_bool_decide || case_match).
Qed.

(** X11.  A pattern without [${] is returned as it is, with no access to
    the file system, whatever the file: its workspace folder is not
    looked up. *)
Theorem resolveString_plain_pattern (pattern : string) (resource : Uri)
    (exportExt : option string) (w : World) :
  includes "${" pattern = false →
  resolveString getWorkspaceFolder (Some pattern) resource exportExt w
  = (Return pattern,
     mkWorld (files w) (log w ++ [ConsoleLog "Version number: -1"])).
Proof.
  intros Hplain.
  assert (intermediate getWorkspaceFolder (Some pattern) resource exportExt
          = Return pattern) as Hreplaced
    by (by apply replace_variables_plain).
  assert (includes VERSION_MARKER pattern = false) as Hm.
  { destruct (includes VERSION_MARKER pattern) eqn:E; [|done].
    apply includes_marker_placeholder in E. congruence. }
  rewrite (resolveString_run _ _ _ _ _ _ _ _ Hreplaced
             (getVersionNumber_no_marker pattern resource w Hm)).
  cbv zeta. by rewrite bool_decide_eq_true_2.
Qed.

(** X12.  For a file outside every workspace folder a pattern with a
    placeholder, whatever its name, makes [resolveString] throw the
    TypeError of the evaluator before any event; the default pattern is
    such a pattern. *)
Theorem resolveString_outside_workspace (pattern : option string)
    (resource : Uri) (exportExt : option string) (w : World)
    (a name b : string) :
  getWorkspaceFolder resource = None →
  default defaultPattern pattern = a +:+ "${" +:+ name +:+ "}" +:+ b →
  includes "${" a = false →
  capturable name = true →
  resolveString getWorkspaceFolder pattern resource exportExt w
  = (Throw (TypeError "Cannot read properties of undefined (reading 'uri')"),
     w).
Proof.
  intros Hws Hpattern Ha Hname.
  apply resolveString_evaluator_throws. unfold intermediate.
  rewrite Hpattern, replace_variables_first by done.
  unfold evaluateSingleVariable. by rewrite Hws.
Qed.

(** X13.  A marker that stands only in the directory part of the
    intermediate string gives an expression without capture group.  Where
    the directory is listed, an entry that holds the basename then turns
    the maximum into [NaN] and the markers of the result into the text
    [NaN]; with no such entry the markers become 1. *)
Theorem resolveString_marker_in_directory (pattern : option string)
    (resource : Uri) (exportExt : option string) (w : World)
    (replaced : string) (entries : list string) (writable : bool) :
  intermediate getWorkspaceFolder pattern resource exportExt = Return replaced →
  includes VERSION_MARKER replaced = true →
  includes VERSION_MARKER (basename replaced) = false →
  files w !! fileDir_of replaced resource = Some (Dir entries true writable) →
  ((∃ file, file ∈ entries ∧ includes (basename replaced) file = true) →
     (getVersionNumber replaced resource w).1 = Return NaN
     ∧ (resolveString getWorkspaceFolder pattern resource exportExt w).1
       = Return (replace_all VERSION_MARKER "NaN" replaced))
  ∧ ((∀ file, file ∈ entries → includes (basename replaced) file = false) →
     (getVersionNumber replaced resource w).1 = Return (Num 1)
     ∧ (resolveString getWorkspaceFolder pattern resource exportExt w).1
       = Return (replace_all VERSION_MARKER "1" replaced)).
Proof.
  intros Hreplaced Hm Hb Hdir.
  apply split_at_marker_None in Hb.
  pose proof (getVersionNumber_listed_answer _ _ _ _ _ Hm Hdir) as Hrun.
  unfold marker_to_group in Hrun. rewrite Hb in Hrun. cbv zeta in Hrun.
  split.
  - intros (file & Hfile & Hmatch).
    assert (fold_left (reducer (literal (basename replaced))) entries (Num 0)
            = NaN) as Hfold.
    { generalize (Num 0). clear Hdir Hrun.
      induction entries as [|f entries IH]; intros acc;
        [by apply elem_of_nil in Hfile|].
      simpl. unfold reducer at 2.
      destruct (exec (literal (basename replaced)) f) as [caps|] eqn:E.
      - apply exec_sound in E as (x & s' & _ & E).
        rewrite match_here_literal_nil in E.
        destruct (startsWith _ s'); [|done]. injection E as <-.
        change (Number (capture1 [])) with NaN.
        by rewrite Math_max_NaN_r, fold_reducer_NaN.
      - apply elem_of_cons in Hfile as [->|Hfile]; [|by apply IH].
        apply exec_literal in Hmatch as [caps Hcaps]. congruence. }
    rewrite Hfold in Hrun. split; [done|].
    by rewrite (resolveString_answer _ _ _ w _ _ Hreplaced Hrun).
  - intros Hnone. rewrite fold_reducer_no_match in Hrun.
    + split; [done|].
      by rewrite (resolveString_answer _ _ _ w _ _ Hreplaced Hrun).
    + intros file Hfile.
      destruct (exec (literal (basename replaced)) file) eqn:E; [|done].
      assert (includes (basename replaced) file = true)
        by (apply exec_literal; by eexists).
      rewrite Hnone in *; done.
Qed.

(** X14.  With no pattern given and a workspace folder for the file, the
    intermediate string is the name of the file without its extension, a
    dot, and the export extension: the one of the caller, [scad] when the
    caller gives none, and the placeholder itself when the caller gives the
    empty string.  Where that name holds no marker it is what
    [resolveString] returns. *)
Theorem resolveString_default_name (resource : Uri)
    (exportExt : option string) (folder : WorkspaceFolder) (w : World) :
  getWorkspaceFolder resource = Some folder →
  let extension :=
    match exportExt with
    | None => "scad"
    | Some EmptyString => "${exportExtension}"
    | Some ext => ext
    end in
  let name := fileBasenameNoExt resource +:+ "." +:+ extension in
  intermediate getWorkspaceFolder None resource exportExt = Return name
  ∧ (includes VERSION_MARKER name = false →
     (resolveString getWorkspaceFolder None resource exportExt w).1
     = Return name).
Proof.
  intros Hws extension name.
  assert (intermediate getWorkspaceFolder None resource exportExt
          = Return name) as Hname.
  { unfold intermediate. cbn [default]. unfold defaultPattern.
    change "${fileBasenameNoExtension}.${exportExtension}"
      with (EmptyString +:+ "${" +:+ "fileBasenameNoExtension" +:+ "}"
            +:+ "." +:+ "${" +:+ "exportExtension" +:+ "}" +:+ EmptyString).
    rewrite replace_variables_first by done.
    rewrite replace_variables_first by done.
    unfold evaluateSingleVariable. rewrite Hws.
    subst name extension.
    destruct exportExt as [[|c ext]|]; vm_compute; by rewrite ?append_empty_r. }
  split; [done|]. intros Hm.
  apply (resolveString_answer _ _ _ w _ (Num (-1)) Hname).
  by rewrite getVersionNumber_no_marker.
Qed.

Lemma evaluateSingleVariable_returns (match_ variable : string)
    (resource : Uri) (exportExt : option string) (folder : WorkspaceFolder) :
  getWorkspaceFolder resource = Some folder →
  ∃ value,
    evaluateSingleVariable getWorkspaceFolder match_ variable resource exportExt
    = Return value.
Proof.
  intros Hws. unfold evaluateSingleVariable. rewrite Hws. cbn zeta.
  repeat case_bool_decide; try destruct (negb _); eauto.
Qed.

Lemma replace_variables_from_returns
    (callback : string → string → outcome string) (skip : nat) (s : string) :
  (∀ match_ variable, ∃ value, callback match_ variable = Return value) →
  ∃ replaced, replace_variables_from callback skip s = Return replaced.
Proof.
  intros Hcallback. revert skip.
  induction s as [|c s IH]; intros skip; [by exists EmptyString|].
  rewrite replace_variables_from_cons. destruct skip as [|k]; [|apply IH].
  destruct (VARIABLE_REGEXP_match (String c s)) as [variable|].
  - destruct (Hcallback ("${" +:+ variable +:+ "}") variable) as [value ->].
    destruct (IH (2 + String.length variable)%nat) as [rest ->].
    by eexists.
  - destruct (IH 0%nat) as [rest ->]. by eexists.
Qed.

Lemma forEach_lines (resource : Uri) (folder : WorkspaceFolder)
    (names : list string) (w : World) :
  getWorkspaceFolder resource = Some folder →
  ∃ lines,
    forEach
      (λ variable,
         value ← lift
           (evaluateSingleVariable getWorkspaceFolder
              ("${" +:+ variable +:+ "}") variable resource (Some "test"));
         console_log (variable +:+ " : " +:+ value)) names w
    = (Return tt, mkWorld (files w) (log w ++ (ConsoleLog <$> lines)))
    ∧ Forall2
        (λ variable line,
           ∃ value,
             evaluateSingleVariable getWorkspaceFolder
               ("${" +:+ variable +:+ "}") variable resource (Some "test")
             = Return value
             ∧ line = variable +:+ " : " +:+ value) names lines.
Proof.
  intros Hws. revert w. induction names as [|name names IH]; intros w.
  - exists []. split; [|constructor]. cbn [forEach]. run.
    rewrite app_nil_r. by destruct w.
  - assert (∃ value,
        evaluateSingleVariable getWorkspaceFolder
          ("${" +:+ name +:+ "}") name resource (Some "test")
        = Return value) as [value Hvalue].
    { by eapply evaluateSingleVariable_returns. }
    destruct (IH (mkWorld (files w)
                    (log w ++ [ConsoleLog (name +:+ " : " +:+ value)])))
      as (lines & Hrun & Hlines).
    exists ((name +:+ " : " +:+ value) :: lines). split.
    + cbn [forEach]. run. rewrite Hvalue.
      revert Hrun. run. intros ->. cbn [files log].
      by rewrite <- app_assoc.
    + constructor; [by exists value|done].
Qed.

(** X15.  [testVars] writes its heading and then one line per name of
    [variables], twelve in all, and touches nothing else; the lines of
    [exportExtension], [#] and [noMatch] show [test] and the two
    placeholders.  For a file without workspace folder it throws after the
    heading. *)
Theorem testVars_lines (resource : Uri) (w : World) :
  (getWorkspaceFolder resource = None →
   testVars getWorkspaceFolder resource w
   = (Throw (TypeError "Cannot read properties of undefined (reading 'uri')"),
      mkWorld (files w)
        (log w ++ [ConsoleLog "Testing evaluateSingleVariable()..."])))
  ∧ (∀ folder,
       getWorkspaceFolder resource = Some folder →
       ∃ lines,
         testVars getWorkspaceFolder resource w
         = (Return tt,
            mkWorld (files w)
              (log w ++ ConsoleLog "Testing evaluateSingleVariable()..."
                 :: (ConsoleLog <$> lines)))
         ∧ length lines = length variables
         ∧ "exportExtension : test" ∈ lines
         ∧ "# : ${#}" ∈ lines
         ∧ "noMatch : ${noMatch}" ∈ lines).
Proof.
  split.
  - intros Hws. unfold testVars, variables. cbn [forEach]. run.
    unfold evaluateSingleVariable. by rewrite Hws.
  - intros folder Hws.
    destruct (forEach_lines resource folder variables
                (mkWorld (files w)
                   (log w ++ [ConsoleLog "Testing evaluateSingleVariable()..."]))
                Hws) as (lines & Hrun & Hlines).
    exists lines. split.
    { unfold testVars. run. revert Hrun. run. intros ->. cbn [files log].
      by rewrite <- app_assoc. }
    split; [symmetry; by eapply Forall2_length|].
    assert (∀ i name shown,
              variables !! i = Some name →
              evaluateSingleVariable getWorkspaceFolder
                ("${" +:+ name +:+ "}") name resource (Some "test")
              = Return shown →
              name +:+ " : " +:+ shown ∈ lines) as Hline.
    { intros i name shown Hi Hshown.
      destruct (Forall2_lookup_l _ _ _ _ _ Hlines Hi)
        as (line & Hl & value & Hvalue & ->).
      rewrite Hshown in Hvalue. injection Hvalue as <-.
      by eapply list_elem_of_lookup_2. }
    split; [|split].
    + apply (Hline 9%nat "exportExtension" "test"); [done|].
      unfold evaluateSingleVariable. rewrite Hws. by vm_compute.
    + apply (Hline 10%nat "#" "${#}"); [done|].
      unfold evaluateSingleVariable. rewrite Hws. by vm_compute.
    + apply (Hline 11%nat "noMatch" "${noMatch}"); [done|].
      unfold evaluateSingleVariable. rewrite Hws. by vm_compute.
Qed.

(** X16.  Inside a workspace folder the placeholders never make the
    substitution throw, and they are replaced one by one from left to
    right: the value of the first placeholder is put in as it is, not
    scanned again, and the text after the placeholder is substituted on its
    own. *)
Theorem intermediate_left_to_right (resource : Uri)
    (exportExt : option string) (folder : WorkspaceFolder)
    (a name b : string) :
  getWorkspaceFolder resource = Some folder →
  includes "${" a = false →
  capturable name = true →
  ∃ value rest,
    evaluateSingleVariable getWorkspaceFolder ("${" +:+ name +:+ "}") name
      resource exportExt
    = Return value
    ∧ intermediate getWorkspaceFolder (Some b) resource exportExt
      = Return rest
    ∧ intermediate getWorkspaceFolder
        (Some (a +:+ "${" +:+ name +:+ "}" +:+ b)) resource exportExt
      = Return (a +:+ value +:+ rest).
Proof.
  intros Hws Ha Hname.
  destruct (evaluateSingleVariable_returns ("${" +:+ name +:+ "}") name
              resource exportExt folder Hws) as [value Hvalue].
  destruct (replace_variables_from_returns
              (λ match_ variable,
                 evaluateSingleVariable getWorkspaceFolder match_ variable
                   resource exportExt) 0 b) as [rest Hrest].
  { intros match_ variable. by eapply evaluateSingleVariable_returns. }
  exists value, rest. split; [done|]. unfold intermediate.
  cbn [default from_option id].
  split; [exact Hrest|].
  rewrite replace_variables_first by done. rewrite Hvalue. cbn [outcome_bind].
  unfold replace_variables. by rewrite Hrest.
Qed.

End resolver_more.

(** ** File names on a POSIX system *)

Section posix_names.
Import JsString Posix VariableResolver.

Lemma text_app (l1 l2 : list ascii) : text (l1 ++ l2) = text l1 +:+ text l2.
Proof.
  induction l1 as [|c l1 IH]; [done|].
  cbn [app]. unfold text in *. cbn [string_of_list_ascii].
  by rewrite append_cons, IH.
Qed.

Lemma chars_text (l : list ascii) : chars (text l) = l.
Proof. apply list_ascii_of_string_of_list_ascii. Qed.

Lemma length_chars (s : string) : length (chars s) = String.length s.
Proof. induction s as [|c s IH]; [done|]. cbn. by rewrite <- IH. Qed.

Lemma length_text (l : list ascii) : String.length (text l) = length l.
Proof. by rewrite <- length_chars, chars_text. Qed.

Lemma take_drop_while (f : ascii → bool) (l : list ascii) :
  take_while f l ++ drop_while f l = l.
Proof.
  induction l as [|c l IH]; [done|]. cbn.
  destruct (f c); [|done]. cbn. by rewrite IH.
Qed.

Lemma length_take_while (f : ascii → bool) (l : list ascii) :
  (length (take_while f l) ≤ length l)%nat.
Proof.
  induction l as [|c l IH]; [done|]. cbn. destruct (f c); cbn; lia.
Qed.

Lemma length_drop_while (f : ascii → bool) (l : list ascii) :
  (length (drop_while f l) ≤ length l)%nat.
Proof.
  induction l as [|c l IH]; [done|]. cbn. destruct (f c); cbn; lia.
Qed.

Lemma length_last_segment_rev (p : string) :
  (length (last_segment_rev p) ≤ String.length p)%nat.
Proof.
  unfold last_segment_rev.
  etrans; [apply length_take_while|].
  etrans; [apply length_drop_while|].
  by rewrite length_rev, length_chars.
Qed.

Lemma strip_app (l1 l2 : list ascii) : strip l1 (l1 ++ l2) = Some l2.
Proof.
  induction l1 as [|c l1 IH]; [by destruct l2|].
  cbn. by rewrite bool_decide_eq_true_2.
Qed.

(** X17.  On a POSIX system the name without extension followed by the
    extension is the base name of the file: the values of
    [fileBasenameNoExtension] and [fileExtname] put together give the value
    of [fileBasename], for every path. *)
Theorem fileBasenameNoExt_extname (cwd : string) (resource : Uri) :
  @fileBasenameNoExt (Posix.api cwd) resource
    +:+ @extname (Posix.api cwd) (fsPath resource)
  = @basename (Posix.api cwd) (fsPath resource).
Proof.
  unfold fileBasenameNoExt. cbn [basename basename_ext extname Posix.api].
  generalize (fsPath resource) as p. intros p.
  unfold posix_extname. cbv zeta.
  pose proof (take_drop_while (λ c, negb (is_dot c)) (last_segment_rev p))
    as Hseg.
  pose proof (length_last_segment_rev p) as Hlen.
  assert (posix_basename_ext p EmptyString = posix_basename p) as Hempty.
  { unfold posix_basename_ext. by rewrite bool_decide_eq_true_2. }
  destruct (drop_while (λ c, negb (is_dot c)) (last_segment_rev p))
    as [|dot [|c front]] eqn:Hdrop.
  - by rewrite Hempty, append_empty_r.
  - by rewrite Hempty, append_empty_r.
  - case_bool_decide as Hdots; [by rewrite Hempty, append_empty_r|].
    assert (dot = "."%char) as ->.
    { assert (negb (is_dot dot) = false) as Hd.
      { clear -Hdrop. revert Hdrop.
        induction (last_segment_rev p) as [|a l IH]; [done|]. cbn.
        destruct (negb (is_dot a)) eqn:Ha; [done|]. by intros [= <- _]. }
      apply negb_false_iff in Hd. unfold is_dot in Hd.
      by apply bool_decide_eq_true in Hd. }
    set (ext := take_while (λ c, negb (is_dot c)) (last_segment_rev p)) in *.
    unfold posix_basename_ext.
    rewrite bool_decide_eq_false_2 by done. cbn [orb].
    assert (String.length (text ("."%char :: rev ext))
            = S (length ext)) as Hext.
    { by rewrite length_text; cbn; rewrite length_rev. }
    assert (length (last_segment_rev p) = (length ext + S (S (length front)))%nat)
      as Hl by (by rewrite <- Hseg, length_app).
    destruct (Nat.ltb_spec (String.length p)
                (String.length (text ("."%char :: rev ext)))) as [Hlt|_];
      [lia|].
    rewrite bool_decide_eq_false_2
      by (intros Heq; apply (f_equal String.length) in Heq; lia).
    cbv zeta. rewrite chars_text. cbn [rev].
    rewrite rev_involutive.
    replace (last_segment_rev p) with ((ext ++ ["."%char]) ++ c :: front) at 1
      by (by rewrite <- app_assoc).
    rewrite strip_app.
    unfold posix_basename. rewrite <- text_app. f_equal.
    rewrite <- Hseg. cbn [rev]. rewrite rev_app_distr. cbn [rev].
    by rewrite <- !app_assoc.
Qed.

End posix_names.

(** ** The further properties in the concrete setting *)

(** X5 for two listings of [/proj/src] that differ in their order. *)
Lemma getVersionNumber_order_irrelevant_witness :
  (VariableResolver.getVersionNumber (H := Scenario.api) "part_v${#}.stl"
     Scenario.part
     (Scenario.world ["part_v1.stl"; "part_v5.stl"; "part.scad"] true)).1
  = (VariableResolver.getVersionNumber (H := Scenario.api) "part_v${#}.stl"
       Scenario.part
       (Scenario.world ["part_v5.stl"; "part_v1.stl"; "part.scad"] true)).1.
Proof.
  apply
    (getVersionNumber_order_irrelevant (H := Scenario.api) "part_v${#}.stl"
       Scenario.part
       (Scenario.world ["part_v1.stl"; "part_v5.stl"; "part.scad"] true)
       (Scenario.world ["part_v5.stl"; "part_v1.stl"; "part.scad"] true)
       ["part_v1.stl"; "part_v5.stl"; "part.scad"]
       ["part_v5.stl"; "part_v1.stl"; "part.scad"] true true);
    [vm_compute; reflexivity..|].
  apply perm_swap.
Defined.

(** X6 for [part_v1.stl] and the longer listing with [part_v5.stl]. *)
Lemma getVersionNumber_monotone_witness :
  (VariableResolver.getVersionNumber (H := Scenario.api) "part_v${#}.stl"
     Scenario.part (Scenario.world ["part_v1.stl"] true)).1
  = Effects.Return (JsNumber.Num 2)
  ∧ (VariableResolver.getVersionNumber (H := Scenario.api) "part_v${#}.stl"
       Scenario.part (Scenario.world ["part_v1.stl"; "part_v5.stl"] true)).1
    = Effects.Return (JsNumber.Num 6)
  ∧ 2 ≤ 6.
Proof.
  split; [vm_compute; reflexivity|]. split; [vm_compute; reflexivity|].
  apply
    (getVersionNumber_monotone (H := Scenario.api) "part_v${#}.stl"
       Scenario.part (Scenario.world ["part_v1.stl"] true)
       (Scenario.world ["part_v1.stl"; "part_v5.stl"] true)
       ["part_v1.stl"] ["part_v5.stl"] ["part_v1.stl"; "part_v5.stl"]
       true true 2 6);
    vm_compute; reflexivity.
Defined.

(** X7 next to [part_v3.stl]: the answer is 4, and 5 once [part_v4.stl]
    is there. *)
Lemma getVersionNumber_after_export_witness :
  (VariableResolver.getVersionNumber (H := Scenario.api) "part_v${#}.stl"
     Scenario.part
     (Scenario.world ["part_v4.stl"; "part.scad"; "part_v3.stl"] true)).1
  = Effects.Return (JsNumber.Num (4 + 1)).
Proof.
  apply
    (getVersionNumber_after_export (H := Scenario.api) "part_v${#}.stl"
       Scenario.part (Scenario.world ["part.scad"; "part_v3.stl"] true)
       (Scenario.world ["part_v4.stl"; "part.scad"; "part_v3.stl"] true)
       "part_v" ".stl" ["part.scad"; "part_v3.stl"]
       ["part_v4.stl"; "part.scad"; "part_v3.stl"] true true 4);
    vm_compute; reflexivity.
Defined.

(** X8 for the basename [part_v${#}_${#}.stl] next to the files the
    resolver named before. *)
Lemma getVersionNumber_second_marker_witness :
  (VariableResolver.getVersionNumber (H := Scenario.api)
     "part_v${#}_${#}.stl" Scenario.part
     (Scenario.world ["part.scad"; "part_v1_1.stl"; "part_v2_2.stl"] true)).1
  = Effects.Return (JsNumber.Num 1).
Proof.
  apply
    (getVersionNumber_second_marker (H := Scenario.api)
       "part_v${#}_${#}.stl" Scenario.part
       (Scenario.world ["part.scad"; "part_v1_1.stl"; "part_v2_2.stl"] true)
       "part_v" "_${#}.stl"
       ["part.scad"; "part_v1_1.stl"; "part_v2_2.stl"] true);
    try (vm_compute; reflexivity).
  intros file Hin%list_elem_of_In. simpl in Hin.
  destruct Hin as [<-|[<-|[<-|[]]]]; reflexivity.
Defined.

(** X9 next to [part_v1.stl]: both calls name [part_v2.stl]. *)
Lemma resolveString_repeatable_witness :
  (VariableResolver.resolveString (H := Scenario.api) Scenario.project
     (Some "${fileBasenameNoExtension}_v${#}.stl") Scenario.part None
     (VariableResolver.resolveString (H := Scenario.api) Scenario.project
        (Some "${fileBasenameNoExtension}_v${#}.stl") Scenario.part None
        (Scenario.world ["part.scad"; "part_v1.stl"] true)).2).1
  = Effects.Return "part_v2.stl".
Proof.
  apply
    (resolveString_repeatable (H := Scenario.api) Scenario.project
       (Some "${fileBasenameNoExtension}_v${#}.stl") Scenario.part None
       (Scenario.world ["part.scad"; "part_v1.stl"] true) "part_v2.stl").
  vm_compute. reflexivity.
Defined.

(** X10 for the unreadable directory [/proj/src]. *)
Lemma resolveString_exceptions_witness :
  (Effects.Thrown (JsNumber.Num (-2))
   = Effects.TypeError "Cannot read properties of undefined (reading 'uri')"
   ∧ Scenario.project Scenario.part = None
   ∧ (VariableResolver.resolveString (H := Scenario.api) Scenario.project
        (Some "${fileBasenameNoExtension}_v${#}.stl") Scenario.part None
        (Scenario.world ["part.scad"] false)).2
     = Scenario.world ["part.scad"] false)
  ∨ (∃ code dir,
       Effects.Thrown (JsNumber.Num (-2)) = Effects.SystemError code "mkdir" dir)
  ∨ Effects.Thrown (JsNumber.Num (-2)) = Effects.Thrown (JsNumber.Num (-2)).
Proof.
  apply
    (resolveString_exceptions (H := Scenario.api) Scenario.project
       (Some "${fileBasenameNoExtension}_v${#}.stl") Scenario.part None
       (Scenario.world ["part.scad"] false)
       (Effects.Thrown (JsNumber.Num (-2)))).
  vm_compute. reflexivity.
Defined.

(** X11 for the pattern [out.stl] and a file outside every workspace
    folder. *)
Lemma resolveString_plain_pattern_witness :
  VariableResolver.resolveString (H := Scenario.api) Scenario.project
    (Some "out.stl") Scenario.stray None (Scenario.world ["part.scad"] true)
  = (Effects.Return "out.stl",
     Effects.mkWorld (Scenario.disk ["part.scad"] true)
       [Effects.ConsoleLog "Version number: -1"]).
Proof.
  apply
    (resolveString_plain_pattern (H := Scenario.api) Scenario.project
       "out.stl" Scenario.stray None (Scenario.world ["part.scad"] true)).
  vm_compute. reflexivity.
Defined.

(** X12 for the default pattern and a file outside every workspace
    folder. *)
Lemma resolveString_outside_workspace_witness :
  VariableResolver.resolveString (H := Scenario.api) Scenario.project None
    Scenario.stray None (Scenario.world ["part.scad"] true)
  = (Effects.Throw
       (Effects.TypeError
          "Cannot read properties of undefined (reading 'uri')"),
     Scenario.world ["part.scad"] true).
Proof.
  apply
    (resolveString_outside_workspace (H := Scenario.api) Scenario.project
       None Scenario.stray None (Scenario.world ["part.scad"] true)
       EmptyString "fileBasenameNoExtension" ".${exportExtension}");
    vm_compute; reflexivity.
Defined.

(** X13 for the pattern [v${#}/part.stl] and the directory
    [/proj/src/v${#}] with the entry [part.stl]. *)
Lemma resolveString_marker_in_directory_witness :
  (VariableResolver.resolveString (H := Scenario.api) Scenario.project
     (Some "v${#}/part.stl") Scenario.part None
     (Effects.mkWorld
        (<["/proj/src/v${#}" := Effects.Dir ["part.stl"] true true]>
           (Scenario.disk ["part.scad"; "v${#}"] true)) [])).1
  = Effects.Return "vNaN/part.stl".
Proof.
  destruct
    (resolveString_marker_in_directory (H := Scenario.api) Scenario.project
       (Some "v${#}/part.stl") Scenario.part None
       (Effects.mkWorld
          (<["/proj/src/v${#}" := Effects.Dir ["part.stl"] true true]>
             (Scenario.disk ["part.scad"; "v${#}"] true)) [])
       "v${#}/part.stl" ["part.stl"] true)
    as [Hnan _]; [vm_compute; reflexivity..|].
  apply Hnan. exists "part.stl". split; [apply list_elem_of_here|reflexivity].
Defined.

(** X14 for the export extension [stl]. *)
Lemma resolveString_default_name_witness :
  (VariableResolver.resolveString (H := Scenario.api) Scenario.project None
     Scenario.part (Some "stl") (Scenario.world ["part.scad"] true)).1
  = Effects.Return "part.stl".
Proof.
  destruct
    (resolveString_default_name (H := Scenario.api) Scenario.project
       Scenario.part (Some "stl") {| uri := {| fsPath := "/proj" |} |}
       (Scenario.world ["part.scad"] true) eq_refl)
    as [_ Hresolved].
  apply Hresolved. reflexivity.
Defined.

(** X15 for the file [/proj/src/part.scad]. *)
Lemma testVars_lines_witness :
  ∃ lines,
    VariableResolver.testVars (H := Scenario.api) Scenario.project
      Scenario.part (Scenario.world ["part.scad"] true)
    = (Effects.Return tt,
       Effects.mkWorld (Scenario.disk ["part.scad"] true)
         (Effects.ConsoleLog "Testing evaluateSingleVariable()..."
            :: (Effects.ConsoleLog <$> lines)))
    ∧ length lines = 12%nat
    ∧ "exportExtension : test" ∈ lines
    ∧ "# : ${#}" ∈ lines
    ∧ "noMatch : ${noMatch}" ∈ lines.
Proof.
  apply
    (proj2
       (testVars_lines (H := Scenario.api) Scenario.project Scenario.part
          (Scenario.world ["part.scad"] true))
       {| uri := {| fsPath := "/proj" |} |} eq_refl).
Defined.

(** X16 for the pattern [out/${fileBasenameNoExtension}.${exportExtension}]. *)
Lemma intermediate_left_to_right_witness :
  ∃ value rest,
    VariableResolver.evaluateSingleVariable (H := Scenario.api)
      Scenario.project ("${" +:+ "fileBasenameNoExtension" +:+ "}")
      "fileBasenameNoExtension" Scenario.part (Some "stl")
    = Effects.Return value
    ∧ Reference.intermediate (H := Scenario.api) Scenario.project
        (Some ".${exportExtension}") Scenario.part (Some "stl")
      = Effects.Return rest
    ∧ Reference.intermediate (H := Scenario.api) Scenario.project
        (Some ("out/" +:+ "${" +:+ "fileBasenameNoExtension" +:+ "}"
               +:+ ".${exportExtension}")) Scenario.part (Some "stl")
      = Effects.Return ("out/" +:+ value +:+ rest).
Proof.
  apply
    (intermediate_left_to_right (H := Scenario.api) Scenario.project
       Scenario.part (Some "stl") {| uri := {| fsPath := "/proj" |} |}
       "out/" "fileBasenameNoExtension" ".${exportExtension}");
    reflexivity.
Defined.
